(** * rw-demo: the token-refresh-aware API client and its response cache

    A shallow embedding of [services/auth.ts] (class [AuthService]) and
    [services/api.ts] (class [ApiService]), with the statements of the
    specification settled against it.

    Conventions of the embedding.
    - A JavaScript string is the sequence of its code units; only code
      units below 256 are representable ([string] of [ascii]).
    - [string | null] fields are [option string]; JavaScript truthiness of
      such a value ([!x], [!!x], [x || d]) is [truthy].
    - A plain object used as a dictionary (request headers, [localStorage])
      is a [gmap string string]; object spread [{...a, ...b}] is [spread].
    - An [async] method is a computation in the monad [M]: it threads the
      process-wide state and either returns or throws.  State changes made
      before a [throw] are kept, as in JavaScript.
    - A body parsed by [response.json()] is a [json] value; [request] reads
      it without a type ([get_property], [js_truthy], [ToString]), and
      [AuthService] at the types it declares.
    - [console.log/warn/error] have no effect on the modelled state and are
      left out. *)

From stdpp Require Import gmap strings pretty list fin_maps.
From Stdlib Require Import ZArith Ascii.

#[local] Set Warnings "-register-all".

Open Scope string_scope.
Open Scope Z_scope.

(** ** JavaScript values and string primitives *)

Module Js.

(** [!!x] for [x : string | null | undefined]: neither absent nor empty. *)
Definition truthy (x : option string) : bool :=
  match x with
  | Some (String _ _) => true
  | _ => false
  end.

(** [x || d] for [x : string | undefined] and a string default [d]. *)
Definition or_else (x : option string) (d : string) : string :=
  match x with
  | Some (String c r) => String c r
  | _ => d
  end.

(** [x || d] at other types ([string[]], [boolean]); an empty array is
    truthy, [false] is not. *)
Definition or_list {A} (x : option (list A)) (d : list A) : list A :=
  match x with Some l => l | None => d end.

Definition or_bool (x : option bool) (d : bool) : bool :=
  match x with Some true => true | _ => d end.

(** [s.includes(sub)] *)
Fixpoint includes (s sub : string) : bool :=
  String.prefix sub s ||
  match s with
  | EmptyString => false
  | String _ s' => includes s' sub
  end.

(** [s.startsWith(p)] *)
Definition startsWith (s p : string) : bool := String.prefix p s.

(** One code unit of [s.toLowerCase()]: A-Z and the Latin-1 capitals
    U+00C0..U+00DE (the sign U+00D7 apart) move up by 32.  The strings of
    the model hold code units below 256, on which [toLowerCase] works unit
    by unit; a text with other units (U+0130, which becomes two units) is
    outside the model. *)
Definition lower_unit (c : ascii) : ascii :=
  let n := N_of_ascii c in
  if ((65 <=? n) && (n <=? 90) ||
      (192 <=? n) && (n <=? 222) && negb (n =? 215))%N
  then ascii_of_N (n + 32) else c.

Fixpoint toLowerCase (s : string) : string :=
  match s with
  | EmptyString => EmptyString
  | String c s' => String (lower_unit c) (toLowerCase s')
  end.

(** The class [\s] of a regular expression, below 256: TAB, LF, VT, FF,
    CR, space and the no-break space. *)
Definition is_space (c : ascii) : bool :=
  let n := N_of_ascii c in
  ((9 <=? n) && (n <=? 13) || (n =? 32) || (n =? 160))%N.

(** [s.replace(/\s+/g, '-')]: every maximal run of white space becomes one
    hyphen.  [in_run] tells that the previous unit was white space. *)
Fixpoint replace_runs (in_run : bool) (s : string) : string :=
  match s with
  | EmptyString => EmptyString
  | String c s' =>
      if is_space c
      then (if in_run then replace_runs true s'
            else String "-" (replace_runs true s'))
      else String c (replace_runs false s')
  end.

Definition hyphenate (s : string) : string := replace_runs false s.

(** [{...a, ...b}]: the keys of [b] win. *)
Definition spread (a b : gmap string string) : gmap string string := b ∪ a.

(** Data read from or sent as JSON.  The numbers are the integers; the
    client builds the ones of the degraded list response and turns one into
    text only when an error document has a number for its [detail]. *)
Inductive json :=
| JNull
| JBool (b : bool)
| JNum (n : Z)
| JStr (s : string)
| JArr (items : list json)
| JObj (fields : list (string * json)).

(** What a [throw] or a rejected promise carries: an [Error] (or a subclass:
    the [TypeError] of a failed [fetch], the [SyntaxError] of
    [response.json()]) with its message, or some other value. *)
Inductive exn :=
| JsError (message : string)
| NonError.

(** A settled promise, and the result of running a method. *)
Inductive outcome (A : Type) :=
| Return (a : A)
| Throw (e : exn).
Arguments Return {A} a.
Arguments Throw {A} e.

End Js.
Export Js.

(** ** A parsed body, read without a type *)

(** The [TypeError] of reading a property of [null] and the one of turning
    into a string an object that has no usable [toString].  Their messages
    are the engine's; the ones of V8 are written here. *)
Definition null_property_error (key : string) : exn :=
  JsError ("Cannot read properties of null (reading '" +:+ key +:+ "')").

Definition cannot_convert_error : exn :=
  JsError "Cannot convert object to primitive value".

(** The own property [key] of a parsed object; [JSON.parse] keeps the last
    of two members with one name. *)
Fixpoint own_property (fields : list (string * json)) (key : string)
    : option json :=
  match fields with
  | [] => None
  | (name, v) :: rest =>
      match own_property rest key with
      | Some later => Some later
      | None => if String.eqb name key then Some v else None
      end
  end.

(** [value.key] for a name [key] that no prototype defines: reading it off
    [null] throws, a primitive or an array has none ([undefined] is
    [None]). *)
Definition get_property (value : json) (key : string) : outcome (option json) :=
  match value with
  | JNull => Throw (null_property_error key)
  | JObj fields => Return (own_property fields key)
  | _ => Return None
  end.

(** [!!v] for a parsed value or [undefined]. *)
Definition js_truthy (v : option json) : bool :=
  match v with
  | None | Some JNull => false
  | Some (JBool b) => b
  | Some (JNum n) => negb (n =? 0)
  | Some (JStr s) => truthy (Some s)
  | Some (JArr _) | Some (JObj _) => true
  end.

(** [String(v)], as [new Error(v)] computes its message.  An array joins
    its elements with commas, [null] elements as empty; a parsed object is
    "[object Object]" unless it has a member named [toString], which hides
    the method and makes the conversion throw.  [JNum n] is rendered as the
    integer [n]: the model holds the numbers that are integers of magnitude
    below 2^53. *)
Fixpoint ToString (v : json) : outcome string :=
  match v with
  | JNull => Return "null"
  | JBool true => Return "true"
  | JBool false => Return "false"
  | JNum n => Return (pretty n)
  | JStr s => Return s
  | JArr items =>
      (fix join (items : list json) : outcome string :=
         match items with
         | [] => Return ""
         | item :: rest =>
             let first :=
               match item with JNull => Return "" | _ => ToString item end in
             match rest with
             | [] => first
             | _ :: _ =>
                 match first, join rest with
                 | Return a, Return b => Return (a +:+ "," +:+ b)
                 | Throw e, _ => Throw e
                 | _, Throw e => Throw e
                 end
             end
         end) items
  | JObj fields =>
      match own_property fields "toString" with
      | Some _ => Throw cannot_convert_error
      | None => Return "[object Object]"
      end
  end.

(** Every number inside a value is an integer that JavaScript holds
    exactly. *)
Fixpoint exact_numbers (v : json) : bool :=
  match v with
  | JNum n => (Z.abs n <? 2 ^ 53)
  | JArr items => forallb exact_numbers items
  | _ => true
  end.

(** ** Wire types *)

(** auth.ts, [interface TokenResponse] *)
Record TokenResponse := {
  access_token : string;
  refresh_token : string;
  token_type : string;
}.

(** auth.ts, [interface LoginCredentials] *)
Record LoginCredentials := {
  username : string;
  password : string;
}.

(** api.ts, [interface ApiResponse]: the shape of an error document.  Only
    [detail] is ever read. *)
Record ApiResponse := {
  detail : option string;
}.

(** The [body] of a [RequestInit]: [JSON.stringify(data)] (kept as the
    data) or a [FormData] (its fields in order; a [File] by its content). *)
Inductive Body :=
| JsonText (data : json)
| FormData (fields : list (string * string)).

(** [RequestInit] as this client uses it. *)
Record RequestInit := {
  method : option string;
  headers : gmap string string;
  body : option Body;
}.

(** A [Response].  [response.json()] is read without a type by [request]
    ([body_json]: the payload returned to the caller, and the error
    document whose [detail] it looks up), and at two declared types by
    [AuthService]: as an error document with a string [detail]
    ([body_error]) and as a [TokenResponse] ([body_tokens]); each reading
    may reject (the body is not JSON). *)
Record Response := {
  status : Z;
  body_json : outcome json;
  body_error : outcome ApiResponse;
  body_tokens : outcome TokenResponse;
}.

(** [response.ok] *)
Definition ok (r : Response) : bool := (200 <=? status r) && (status r <=? 299).

(** api.ts, [type RentalPeriod] *)
Inductive RentalPeriod := hourly | daily | weekly | monthly | yearly.

(** api.ts, [interface ProductCreate]: the fields that [createProduct]
    reads.  The prices, [background_image_url], [video_url] and the linked
    ids are optional too and read nowhere in the client. *)
Module ProductCreate.
Record t := {
  title : string;
  subtitle : option string;
  description : option string;
  product_types : option (list string);
  movies : option (list string);
  genres : option (list string);
  keywords : option (list string);
  available_rental_periods : option (list RentalPeriod);
  images : option (list string);
  is_background_image_activated : option bool;
  is_trending_model : option bool;
  slug : option string;
}.
End ProductCreate.

(** api.ts, [interface Product]: the fields that [createProduct] fills; the
    other fields of the interface are optional and stay absent. *)
Module Product.
Record t := {
  id : string;
  title : string;
  subtitle : string;
  description : string;
  product_types : list string;
  movies : list string;
  genres : list string;
  keywords : list string;
  available_rental_periods : list RentalPeriod;
  images : list string;
  is_background_image_activated : bool;
  is_trending_model : bool;
  slug : string;
  created_at : string;
  updated_at : string;
}.
End Product.

(** ** Process state *)

(** What the process did that an observer outside can count: the calls of
    [fetch] with their arguments, and the entries into
    [AuthService.refreshAccessToken]. *)
Inductive event :=
| Fetch (url : string) (init : RequestInit)
| RefreshCall.

(** Modelled from the spec: the record of the cache table, which lives in
    the module [./cache], not among the sources (spec section 3,
    CacheEntry; the key is the key of the table). *)
Record CacheEntry := {
  value : json;
  fetchedAt : Z;
  ttl : Z;
  inflightRefresh : bool;
}.

Record state := {
  accessToken : option string;             (* AuthService.accessToken *)
  refreshToken : option string;            (* AuthService.refreshToken *)
  localStorage : gmap string string;       (* window.localStorage *)
  cache : gmap string CacheEntry;          (* the cache table *)
  fetched : gmap string json;
    (* bookkeeping only, read by no operation: per cache key, the value
       that the last fetch made for it returned ([observed]) *)
  clock : Z;                               (* Date.now(), milliseconds *)
  trace : list event;                      (* oldest first *)
}.

Definition with_tokens (a r : option string) (st : gmap string string)
    (s : state) : state :=
  {| accessToken := a; refreshToken := r; localStorage := st;
     cache := cache s; fetched := fetched s; clock := clock s;
     trace := trace s |}.

Definition with_cache (c : gmap string CacheEntry) (f : gmap string json)
    (s : state) : state :=
  {| accessToken := accessToken s; refreshToken := refreshToken s;
     localStorage := localStorage s; cache := c; fetched := f;
     clock := clock s; trace := trace s |}.

Definition with_clock (t : Z) (s : state) : state :=
  {| accessToken := accessToken s; refreshToken := refreshToken s;
     localStorage := localStorage s; cache := cache s; fetched := fetched s;
     clock := t; trace := trace s |}.

Definition with_trace (tr : list event) (s : state) : state :=
  {| accessToken := accessToken s; refreshToken := refreshToken s;
     localStorage := localStorage s; cache := cache s; fetched := fetched s;
     clock := clock s; trace := tr |}.

(** ** The monad of methods *)

Definition M (A : Type) : Type := state → outcome A * state.

Definition ret {A} (a : A) : M A := fun s => (Return a, s).

Definition bind {A B} (m : M A) (k : A → M B) : M B :=
  fun s =>
    match m s with
    | (Return a, s') => k a s'
    | (Throw e, s') => (Throw e, s')
    end.

Definition throw {A} (e : exn) : M A := fun s => (Throw e, s).

(** [try { body } catch (e) { handler(e) }] *)
Definition try_catch {A} (body : M A) (handler : exn → M A) : M A :=
  fun s =>
    match body s with
    | (Return a, s') => (Return a, s')
    | (Throw e, s') => handler e s'
    end.

(** [await p] for an already settled promise. *)
Definition await {A} (p : outcome A) : M A := fun s => (p, s).

Definition gets {A} (f : state → A) : M A := fun s => (Return (f s), s).

Definition modify (f : state → state) : M unit := fun s => (Return tt, f s).

Notation "'let*' x ':=' c 'in' k" := (bind c (fun x => k))
  (at level 10, x name, c at level 100, k at level 200).
Notation "'run' c 'then' k" := (bind c (fun _ => k))
  (at level 10, c at level 100, k at level 200).

(** The network is an argument of the model: what a [fetch] settles to may
    depend on everything the process did before and on the request. *)
Definition network := list event → string → RequestInit → outcome Response.

Definition API_BASE_URL : string :=
  "https://reel-wheel-api-x92jj.ondigitalocean.app".

Section Client.

Variable net : network.

(** [await fetch(url, init)] *)
Definition fetch (url : string) (init : RequestInit) : M Response :=
  fun s => (net (trace s) url init, with_trace (trace s ++ [Fetch url init]) s).

(** ** auth.ts: class AuthService *)

Definition loadTokensFromStorage : M unit :=
  modify (fun s =>
    with_tokens (localStorage s !! "access_token")
                (localStorage s !! "refresh_token")
                (localStorage s) s).

Definition saveTokensToStorage (tokens : TokenResponse) : M unit :=
  modify (fun s =>
    with_tokens (Some (access_token tokens))
                (Some (refresh_token tokens))
                (<["refresh_token" := refresh_token tokens]>
                   (<["access_token" := access_token tokens]> (localStorage s)))
                s).

Definition clearTokensFromStorage : M unit :=
  modify (fun s =>
    with_tokens None None
                (delete "refresh_token" (delete "access_token" (localStorage s)))
                s).

Definition login (credentials : LoginCredentials) : M TokenResponse :=
  let formData :=
    FormData [("username", username credentials);
              ("password", password credentials);
              ("grant_type", "password")] in
  try_catch
    (let* response := fetch (API_BASE_URL +:+ "/v1/auth/login")
                  {| method := Some "POST"; headers := ∅;
                     body := Some formData |} in
     if negb (ok response) then
       let* error := await (body_error response) in
       throw (JsError (or_else (detail error) "Login failed"))
     else
       let* tokens := await (body_tokens response) in
       run saveTokensToStorage tokens then
       ret tokens)
    (fun error => throw error).

Definition refreshAccessToken : M TokenResponse :=
  run modify (fun s => with_trace (trace s ++ [RefreshCall]) s) then
  let* held := gets refreshToken in
  if negb (truthy held) then throw (JsError "No refresh token available")
  else
    try_catch
      (let* response := fetch (API_BASE_URL +:+ "/v1/auth/refresh")
                    {| method := Some "POST";
                       headers := {[ "Content-Type" := "application/json" ]};
                       body := Some (JsonText
                                 (JObj [("refresh_token",
                                         JStr (default "" held))])) |} in
       if negb (ok response) then
         let* error := await (body_error response) in
         throw (JsError (or_else (detail error) "Token refresh failed"))
       else
         let* tokens := await (body_tokens response) in
         run saveTokensToStorage tokens then
         ret tokens)
      (fun error => run clearTokensFromStorage then throw error).

Definition logout : M unit := clearTokensFromStorage.

Definition getAccessToken : M (option string) := gets accessToken.

Definition isAuthenticated : M bool := gets (fun s => truthy (accessToken s)).

Definition getAuthHeaders : M (gmap string string) :=
  gets (fun s =>
    let headers : gmap string string :=
      {[ "Content-Type" := "application/json" ]} in
    if truthy (accessToken s)
    then <["Authorization" := "Bearer " +:+ default "" (accessToken s)]> headers
    else headers).

(** ** cache.ts (not among the sources) *)

(** The three resource families. *)
Inductive family := Products | Memorabilia | Merchandise.

(** Which cache keys a family owns is decided in [./cache]; the callers
    choose the keys.  It is an argument of the model. *)
Variable belongs : family → string → bool.

(** Modelled from the spec: what the invalidation functions of the absent
    module [./cache] do, "synchronously invalidate all cache entries
    belonging to that family (coarse-grained, family-wide invalidation)"
    (section 4.2, step 6). *)
Definition invalidate (f : family) : M unit :=
  modify (fun s =>
    with_cache (filter (fun kv => belongs f kv.1 = false) (cache s))
               (fetched s) s).

(** Modelled from the spec: the three functions that api.ts imports from
    [./cache], one per family. *)
Definition invalidateProductCache : M unit := invalidate Products.
Definition invalidateMemorabiliaCache : M unit := invalidate Memorabilia.
Definition invalidateMerchandiseCache : M unit := invalidate Merchandise.

(** ** api.ts: class ApiService *)

(** [options = {}] *)
Definition no_options : RequestInit :=
  {| method := None; headers := ∅; body := None |}.

(** [{...options, headers: h}] *)
Definition with_headers (options : RequestInit) (h : gmap string string)
    : RequestInit :=
  {| method := method options; headers := h; body := body options |}.

(** The test of the [catch] block of [request]. *)
Definition fallback_applies (endpoint : string) : bool :=
  includes endpoint "products" || includes endpoint "memorabilia" ||
  includes endpoint "merchandise".

(** [error instanceof Error ? error.message : 'API Error'] *)
Definition message_of (error : exn) : string :=
  match error with
  | JsError m => m
  | NonError => "API Error"
  end.

(** [{ rows: [], total: 0, offset: 0, error: ... } as ListResponse<any>] *)
Definition empty_list (error : exn) : json :=
  JObj [("rows", JArr []); ("total", JNum 0); ("offset", JNum 0);
        ("error", JStr (message_of error))].

Definition session_expired : exn :=
  JsError "Session expired. Please login again.".

(** [`HTTP error! status: ${response.status}`] *)
Definition http_error (code : Z) : string :=
  "HTTP error! status: " +:+ pretty code.

(** [ApiService.request] is cut in three at the blank lines of its [try]
    block.  First the dispatch and the handling of a 401: the response
    that the rest of the method looks at.  [isAuthenticated] is a pure
    read, so asking it before the test of the status changes nothing. *)
Definition request_response (url : string) (options : RequestInit)
    : M Response :=
  let* auth := getAuthHeaders in
  let* first :=
    fetch url (with_headers options (spread auth (headers options))) in
  let* authenticated := isAuthenticated in
  if (status first =? 401) && authenticated then
    try_catch
      (run refreshAccessToken then
       let* auth' := getAuthHeaders in
       fetch url (with_headers options (spread auth' (headers options))))
      (fun refreshError =>
         run logout then
         throw session_expired)
  else ret first.

(** Then the handling of that response: [!response.ok], 204, the body.
    The [.catch(() => ({}))] covers the parsing only; reading [detail] and
    building the [Error] come after it. *)
Definition request_result (response : Response) : M json :=
  if negb (ok response) then
    let* errorData :=
      try_catch (await (body_json response)) (fun _ => ret (JObj [])) in
    let* detail := await (get_property errorData "detail") in
    let* message :=
      if js_truthy detail then await (ToString (default JNull detail))
      else ret (http_error (status response)) in
    throw (JsError message)
  else if status response =? 204 then ret (JObj [])
  else await (body_json response).

(** Last the [catch] block around both. *)
Definition request_catch (endpoint : string) (error : exn) : M json :=
  if fallback_applies endpoint then ret (empty_list error)
  else throw error.

Definition request (endpoint : string) (options : RequestInit) : M json :=
  let url := API_BASE_URL +:+ endpoint in
  try_catch
    (let* response := request_response url options in
     request_result response)
    (request_catch endpoint).

(** The [URLSearchParams] of the list methods are passed already
    serialised ([searchParams.toString()]). *)
Definition getProducts (query : string) : M json :=
  request ("/v1/products/?" +:+ query) no_options.

Definition searchProducts (query : string) : M json :=
  try_catch
    (request ("/v1/products/search?" +:+ query) no_options)
    (fun error => request ("/v1/products/?" +:+ query) no_options).

Definition getProduct (idOrSlug : string) : M json :=
  try_catch
    (request ("/v1/products/" +:+ idOrSlug) no_options)
    (fun error => throw error).

Definition updateProduct (id : string) (data : json) : M json :=
  let* result := request ("/v1/products/" +:+ id)
                   {| method := Some "PATCH"; headers := ∅;
                      body := Some (JsonText data) |} in
  run invalidateProductCache then
  ret result.

Definition deleteProduct (id : string) : M json :=
  let* result := request ("/v1/products/" +:+ id)
                   {| method := Some "DELETE"; headers := ∅; body := None |} in
  run invalidateProductCache then
  ret result.

Definition getMemorabilia (query : string) : M json :=
  request ("/v1/memorabilia/?" +:+ query) no_options.

Definition getMemorabiliaItem (idOrSlug : string) : M json :=
  request ("/v1/memorabilia/" +:+ idOrSlug) no_options.

Definition createMemorabilia (data : json) : M json :=
  let* result := request "/v1/memorabilia/"
                   {| method := Some "POST"; headers := ∅;
                      body := Some (JsonText data) |} in
  run invalidateMemorabiliaCache then
  ret result.

Definition updateMemorabilia (id : string) (data : json) : M json :=
  let* result := request ("/v1/memorabilia/" +:+ id)
                   {| method := Some "PATCH"; headers := ∅;
                      body := Some (JsonText data) |} in
  run invalidateMemorabiliaCache then
  ret result.

Definition deleteMemorabilia (id : string) : M json :=
  let* result := request ("/v1/memorabilia/" +:+ id)
                   {| method := Some "DELETE"; headers := ∅; body := None |} in
  run invalidateMemorabiliaCache then
  ret result.

Definition getMerchandise (query : string) : M json :=
  request ("/v1/merchandises/?" +:+ query) no_options.

Definition getMerchandiseItem (idOrSlug : string) : M json :=
  request ("/v1/merchandises/" +:+ idOrSlug) no_options.

Definition createMerchandise (data : json) : M json :=
  let* result := request "/v1/merchandises/"
                   {| method := Some "POST"; headers := ∅;
                      body := Some (JsonText data) |} in
  run invalidateMerchandiseCache then
  ret result.

Definition updateMerchandise (id : string) (data : json) : M json :=
  let* result := request ("/v1/merchandises/" +:+ id)
                   {| method := Some "PATCH"; headers := ∅;
                      body := Some (JsonText data) |} in
  run invalidateMerchandiseCache then
  ret result.

Definition deleteMerchandise (id : string) : M json :=
  let* result := request ("/v1/merchandises/" +:+ id)
                   {| method := Some "DELETE"; headers := ∅; body := None |} in
  run invalidateMerchandiseCache then
  ret result.

(** [uploadFile]: the caller's own [Authorization] is computed when the
    method is entered. *)
Definition uploadFile (file : string) : M json :=
  let formData := FormData [("file", file)] in
  let* auth := getAuthHeaders in
  request "/v1/uploads/"
    {| method := Some "POST";
       headers := {[ "Authorization" := or_else (auth !! "Authorization") "" ]};
       body := Some formData |}.

Definition deleteFile (query : string) : M json :=
  request ("/v1/uploads/?" +:+ query)
    {| method := Some "DELETE"; headers := ∅; body := None |}.

(** [await new Promise(resolve => setTimeout(resolve, ms))].  A timer fires
    no earlier than asked; the model takes that earliest instant. *)
Definition sleep (ms : Z) : M unit :=
  modify (fun s => with_clock (clock s + ms) s).

(** [new Date().toISOString()] formats an instant; the calendar arithmetic
    is an argument of the model. *)
Variable toISOString : Z → string.

(** The object literal [mockProduct], which [createProduct] writes twice. *)
Definition mockProduct (data : ProductCreate.t) (now : Z) : Product.t :=
  {| Product.id := "mock-" +:+ pretty now;
     Product.title := ProductCreate.title data;
     Product.subtitle := or_else (ProductCreate.subtitle data) "";
     Product.description := or_else (ProductCreate.description data) "";
     Product.product_types := or_list (ProductCreate.product_types data) [];
     Product.movies := or_list (ProductCreate.movies data) [];
     Product.genres := or_list (ProductCreate.genres data) [];
     Product.keywords := or_list (ProductCreate.keywords data) [];
     Product.available_rental_periods :=
       or_list (ProductCreate.available_rental_periods data) [];
     Product.images := or_list (ProductCreate.images data) [];
     Product.is_background_image_activated :=
       or_bool (ProductCreate.is_background_image_activated data) false;
     Product.is_trending_model :=
       or_bool (ProductCreate.is_trending_model data) false;
     Product.slug :=
       or_else (ProductCreate.slug data)
               (hyphenate (toLowerCase (ProductCreate.title data)));
     Product.created_at := toISOString now;
     Product.updated_at := toISOString now |}.

(** [createProduct]: the call of the API and the invalidation are commented
    out in the source ("For demo purposes, skip API call and return mock
    success"). *)
Definition createProduct (data : ProductCreate.t) : M Product.t :=
  try_catch
    (run sleep 500 then
     let* now := gets clock in
     ret (mockProduct data now))
    (fun error =>
       let* now := gets clock in
       ret (mockProduct data now)).

(** The mutations of [ApiService], to quantify over them. *)
Inductive mutation :=
| CreateProduct (data : ProductCreate.t)
| UpdateProduct (id : string) (data : json)
| DeleteProduct (id : string)
| CreateMemorabilia (data : json)
| UpdateMemorabilia (id : string) (data : json)
| DeleteMemorabilia (id : string)
| CreateMerchandise (data : json)
| UpdateMerchandise (id : string) (data : json)
| DeleteMerchandise (id : string).

Definition family_of (m : mutation) : family :=
  match m with
  | CreateProduct _ | UpdateProduct _ _ | DeleteProduct _ => Products
  | CreateMemorabilia _ | UpdateMemorabilia _ _ | DeleteMemorabilia _ =>
      Memorabilia
  | CreateMerchandise _ | UpdateMerchandise _ _ | DeleteMerchandise _ =>
      Merchandise
  end.

Definition is_mock (m : mutation) : bool :=
  match m with CreateProduct _ => true | _ => false end.

(** Call the method and drop what it returns. *)
Definition perform (m : mutation) : M unit :=
  match m with
  | CreateProduct data => run createProduct data then ret tt
  | UpdateProduct id data => run updateProduct id data then ret tt
  | DeleteProduct id => run deleteProduct id then ret tt
  | CreateMemorabilia data => run createMemorabilia data then ret tt
  | UpdateMemorabilia id data => run updateMemorabilia id data then ret tt
  | DeleteMemorabilia id => run deleteMemorabilia id then ret tt
  | CreateMerchandise data => run createMerchandise data then ret tt
  | UpdateMerchandise id data => run updateMerchandise id data then ret tt
  | DeleteMerchandise id => run deleteMerchandise id then ret tt
  end.

(** ** hooks/useApi.ts (not among the sources): the read-through cache *)

(** Modelled from the spec: "an entry is fresh iff now - fetchedAt < ttl"
    (section 3). *)
Definition fresh (now : Z) (e : CacheEntry) : bool :=
  now - fetchedAt e <? ttl e.

(** Modelled from the spec: the cache write of step 6, "on a successful
    cacheable read, write/refresh the cache entry". *)
Definition cache_write (key : string) (v : json) (cacheTTL : Z) : M unit :=
  modify (fun s =>
    with_cache
      (<[key := {| value := v; fetchedAt := clock s; ttl := cacheTTL;
                   inflightRefresh := false |}]> (cache s))
      (fetched s) s).

(** The bookkeeping: [v] is what a fetch made for [key] returned. *)
Definition record_fetch (key : string) (v : json) : M unit :=
  modify (fun s => with_cache (cache s) (<[key := v]> (fetched s)) s).

(** A fetch made for a cache key, with the bookkeeping: when it returns, the
    value it returned is recorded for the key, before the hook sees it. *)
Definition observed (key : string) (fetcher : M json) : M json :=
  let* v := fetcher in
  run record_fetch key v then
  ret v.

(** Modelled from the spec: the cache-eligible read that the hook [useApi]
    performs for a call with [cacheKey], [cacheTTL] and
    [staleWhileRevalidate] (section 4.2, steps 1 and 6).  A fresh entry is
    returned at once; a stale one is returned while the fetch that
    revalidates it is run, its failure swallowed; otherwise the fetch is
    run and its value written.  The revalidation is asynchronous in the
    spec; the model runs it to its end before the next operation. *)
Definition cached_read (key : string) (cacheTTL : Z)
    (staleWhileRevalidate : bool) (fetcher : M json) : M json :=
  let* now := gets clock in
  let* entry := gets (fun s => cache s !! key) in
  match entry with
  | Some e =>
      if fresh now e then ret (value e)
      else if staleWhileRevalidate then
        run try_catch (let* v := fetcher in cache_write key v cacheTTL)
                      (fun _ => ret tt) then
        ret (value e)
      else
        let* v := fetcher in
        run cache_write key v cacheTTL then
        ret v
  | None =>
      let* v := fetcher in
      run cache_write key v cacheTTL then
      ret v
  end.

(** pages/admin/MemorabiliaList.tsx: the list is read through the hook with
    the key [`memorabilia-list-${searchTerm}`], a TTL of two minutes and
    stale-while-revalidate.  [query] is the serialised
    [{ q: searchTerm, limit: 100 }]. *)
Definition MemorabiliaList_read (searchTerm query : string) : M json :=
  cached_read ("memorabilia-list-" +:+ searchTerm) (2 * 60 * 1000) true
              (getMemorabilia query).

(** Time passing between two operations. *)
Definition advance (d : Z) : M unit := sleep d.

(** ** Runs of the client *)

(** The read methods of [ApiService], to quantify over them. *)
Inductive read_call :=
| GetProducts (query : string)
| SearchProducts (query : string)
| GetProduct (idOrSlug : string)
| GetMemorabilia (query : string)
| GetMemorabiliaItem (idOrSlug : string)
| GetMerchandise (query : string)
| GetMerchandiseItem (idOrSlug : string).

Definition call (c : read_call) : M json :=
  match c with
  | GetProducts q => getProducts q
  | SearchProducts q => searchProducts q
  | GetProduct i => getProduct i
  | GetMemorabilia q => getMemorabilia q
  | GetMemorabiliaItem i => getMemorabiliaItem i
  | GetMerchandise q => getMerchandise q
  | GetMerchandiseItem i => getMerchandiseItem i
  end.

(** What a page can ask of the client, one operation after the other. *)
Inductive action :=
| Login (credentials : LoginCredentials)
| Refresh
| Logout
| Read (c : read_call)
| CachedRead (key : string) (cacheTTL : Z) (staleWhileRevalidate : bool)
             (c : read_call)
| Mutate (m : mutation)
| Upload (file : string)
| DeleteFile (query : string)
| Advance (d : Z).

(** The state an action leaves, whether it returned or threw. *)
Definition exec (a : action) (s : state) : state :=
  match a with
  | Login credentials => snd (login credentials s)
  | Refresh => snd (refreshAccessToken s)
  | Logout => snd (logout s)
  | Read c => snd (call c s)
  | CachedRead key cacheTTL swr c =>
      snd (cached_read key cacheTTL swr (observed key (call c)) s)
  | Mutate m => snd (perform m s)
  | Upload file => snd (uploadFile file s)
  | DeleteFile query => snd (deleteFile query s)
  | Advance d => snd (advance d s)
  end.

Definition exec_all (actions : list action) (s : state) : state :=
  fold_left (fun s a => exec a s) actions s.

End Client.

(** [new AuthService()] in a process whose storage holds [storage]: the
    fields start as [null] and the constructor loads them. *)
Definition boot (storage : gmap string string) (now : Z) : state :=
  snd (loadTokensFromStorage
         {| accessToken := None; refreshToken := None;
            localStorage := storage; cache := ∅; fetched := ∅;
            clock := now; trace := [] |}).

(** ** More of the JavaScript library *)

(** [s.trimStart()], [s.trimEnd()] and [s.trim()]: the white space that
    [trim] strips is, below 256, the class [\s]. *)
Fixpoint trimStart (s : string) : string :=
  match s with
  | EmptyString => EmptyString
  | String c s' => if is_space c then trimStart s' else s
  end.

Fixpoint trimEnd (s : string) : string :=
  match s with
  | EmptyString => EmptyString
  | String c s' =>
      match trimEnd s' with
      | EmptyString => if is_space c then EmptyString else String c EmptyString
      | rest => String c rest
      end
  end.

Definition trim (s : string) : string := trimEnd (trimStart s).

(** [xs.includes(x)] on an array of strings. *)
Definition array_includes (xs : list string) (x : string) : bool :=
  existsb (String.eqb x) xs.

(** ** contexts/AuthContext.tsx *)

(** AuthContext.tsx, [interface User] *)
Module User.
Record t := {
  id : string;
  email : string;
  role : string;
}.
End User.

(** The React state of [AuthProvider]: [user] and [isLoading].  A [user]
    that is [null], or any other falsy value, is [None]. *)
Record AuthProvider := {
  user : option User.t;
  isLoading : bool;
}.

(** [useState<User | null>(null)] and [useState(true)] *)
Definition mounted : AuthProvider := {| user := None; isLoading := true |}.

(** [isAuthenticated: !!user] of the context value. *)
Definition context_isAuthenticated (p : AuthProvider) : bool :=
  match user p with Some _ => true | None => false end.

(** [localStorage.removeItem('demo_auth'); localStorage.removeItem('demo_user')] *)
Definition remove_demo (s : state) : state :=
  with_tokens (accessToken s) (refreshToken s)
    (delete "demo_user" (delete "demo_auth" (localStorage s))) s.

Section Provider.

Variable net : network.

(** [JSON.parse(demoUser)]: it throws on a text that is not JSON, gives
    [None] for a text that parses to a falsy value ([null], [false], [0],
    [""]) and otherwise a value that the page reads as a [User]. *)
Variable JSON_parse : string → outcome (option User.t).

(** [checkAuth], the effect that runs when the provider mounts.  The only
    statement of its [try] block that can throw is [JSON.parse]; the
    [finally] block sets [isLoading] to false on every path. *)
Definition checkAuth (p : AuthProvider) (s : state) : AuthProvider * state :=
  let demoAuth := localStorage s !! "demo_auth" in
  let demoUser := localStorage s !! "demo_user" in
  if bool_decide (demoAuth = Some "true") && truthy demoUser then
    match JSON_parse (default "" demoUser) with
    | Return parsed => ({| user := parsed; isLoading := false |}, s)
    | Throw error =>
        ({| user := user p; isLoading := false |},
         remove_demo (snd (logout s)))
    end
  else if truthy (accessToken s) then
    ({| user := Some {| User.id := "1";
                        User.email := "sega@dealertower.com";
                        User.role := "admin" |};
        isLoading := false |}, s)
  else ({| user := user p; isLoading := false |}, s).

(** [login] of the context: whatever [authService.login] throws is
    replaced, and [finally] clears [isLoading]. *)
Definition AuthProvider_login (email password : string)
    (p : AuthProvider) (s : state) : outcome unit * AuthProvider * state :=
  match login net {| username := email; password := password |} s with
  | (Return _, s') =>
      (Return tt,
       {| user := Some {| User.id := "1"; User.email := email;
                          User.role := "admin" |};
          isLoading := false |}, s')
  | (Throw apiError, s') =>
      (Throw (JsError "Invalid credentials. Please contact your administrator."),
       {| user := user p; isLoading := false |}, s')
  end.

(** [logout] of the context. *)
Definition AuthProvider_logout (p : AuthProvider) (s : state)
    : AuthProvider * state :=
  ({| user := None; isLoading := isLoading p |}, remove_demo (snd (logout s))).

End Provider.

(** ** components/Auth/ProtectedRoute.tsx *)

(** What [ProtectedRoute] renders. *)
Inductive view :=
| LoadingScreen
| Navigate (to : string)
| Children.

Definition ProtectedRoute (p : AuthProvider) : view :=
  if isLoading p then LoadingScreen
  else if negb (context_isAuthenticated p) then Navigate "/admin"
  else Children.

(** ** pages/Memorabilia/MemorabiliaList.tsx: the tags of the form *)

(** api.ts, [interface MemorabiliaCreate], as the page holds it in
    [formData]: every [setFormData] of the page gives the optional fields a
    value, so they are modelled present. *)
Module MemorabiliaCreate.
Record t := {
  title : string;
  subtitle : string;
  description : string;
  photos : list string;
  keywords : list string;
  product_ids : list string;
}.
End MemorabiliaCreate.

(** The two pieces of React state that the tag handlers touch. *)
Record TagForm := {
  formData : MemorabiliaCreate.t;
  newTag : string;
}.

(** [{ ...prev, keywords: ks }] *)
Definition with_keywords (ks : list string) (d : MemorabiliaCreate.t)
    : MemorabiliaCreate.t :=
  {| MemorabiliaCreate.title := MemorabiliaCreate.title d;
     MemorabiliaCreate.subtitle := MemorabiliaCreate.subtitle d;
     MemorabiliaCreate.description := MemorabiliaCreate.description d;
     MemorabiliaCreate.photos := MemorabiliaCreate.photos d;
     MemorabiliaCreate.keywords := ks;
     MemorabiliaCreate.product_ids := MemorabiliaCreate.product_ids d |}.

Definition handleAddTag (f : TagForm) : TagForm :=
  if truthy (Some (trim (newTag f))) &&
     negb (array_includes (MemorabiliaCreate.keywords (formData f))
                          (trim (newTag f)))
  then {| formData :=
            with_keywords (MemorabiliaCreate.keywords (formData f) ++
                           [trim (newTag f)]) (formData f);
          newTag := "" |}
  else f.

Definition handleRemoveTag (tagToRemove : string) (f : TagForm) : TagForm :=
  {| formData :=
       with_keywords
         (List.filter (fun tag => negb (String.eqb tag tagToRemove))
                      (MemorabiliaCreate.keywords (formData f)))
         (formData f);
     newTag := newTag f |}.

(** The tags of a table row: [item.keywords.slice(0, 3)] in the cell and,
    when [item.keywords.length > 3], a badge [+{length - 3}] whose tooltip
    lists [item.keywords.slice(3)]. *)
Definition tag_cell (keywords : list string)
    : list string * option (nat * list string) :=
  (take 3 keywords,
   if (3 <? length keywords)%nat
   then Some ((length keywords - 3)%nat, drop 3 keywords)
   else None).

(** ** Concrete servers and states, for the examples *)

Module Samples.

Definition tokens2 : TokenResponse :=
  {| access_token := "A2"; refresh_token := "R2"; token_type := "bearer" |}.

(** A response whose body is the error document [{"detail": d}]. *)
Definition error_response (code : Z) (d : string) : Response :=
  {| status := code;
     body_json := Return (JObj [("detail", JStr d)]);
     body_error := Return {| detail := Some d |};
     body_tokens := Throw (JsError "not a TokenResponse") |}.

(** A response whose body is the payload [j], which has no [detail]. *)
Definition payload_response (code : Z) (j : json) : Response :=
  {| status := code;
     body_json := Return j;
     body_error := Return {| detail := None |};
     body_tokens := Throw (JsError "not a TokenResponse") |}.

(** A response whose body is a token pair. *)
Definition token_response (t : TokenResponse) : Response :=
  {| status := 200;
     body_json :=
       Return (JObj [("access_token", JStr (access_token t));
                     ("refresh_token", JStr (refresh_token t));
                     ("token_type", JStr (token_type t))]);
     body_error := Return {| detail := None |};
     body_tokens := Return t |}.

Definition login_url : string := API_BASE_URL +:+ "/v1/auth/login".

Definition one_row : json :=
  JObj [("rows", JArr [JObj [("id", JStr "7"); ("title", JStr "Batmobile")]]);
        ("total", JNum 1); ("offset", JNum 0)].

(** No connection: every [fetch] rejects. *)
Definition offline : network :=
  fun _ _ _ => Throw (JsError "Failed to fetch").

(** Every request is answered with the same error document. *)
Definition failing (code : Z) (d : string) : network :=
  fun _ _ _ => Return (error_response code d).

(** Every request is answered with the status [code] and a body that
    [response.json()] reads as [parsed]; it is no token document. *)
Definition answering (code : Z) (parsed : outcome json) : network :=
  fun _ _ _ =>
    Return {| status := code;
              body_json := parsed;
              body_error := Throw (JsError "not an error document");
              body_tokens := Throw (JsError "not a TokenResponse") |}.

(** Every request is answered 200 with the same payload. *)
Definition serving (j : json) : network :=
  fun _ _ _ => Return (payload_response 200 j).

(** A server on which the access token A1 has expired: it issues the pair
    A2/R2 at the login and, if [renew], at the refresh endpoint, and
    answers the other requests 200 when they carry [Bearer A2] and 401
    otherwise. *)
Definition expired (renew : bool) : network :=
  fun _ url init =>
    if String.eqb url login_url then Return (token_response tokens2)
    else if String.eqb url (API_BASE_URL +:+ "/v1/auth/refresh") then
      Return (if renew then token_response tokens2
              else error_response 401 "Invalid refresh token")
    else
      match headers init !! "Authorization" with
      | Some "Bearer A2" => Return (payload_response 200 one_row)
      | _ => Return (error_response 401 "Token expired")
      end.

Definition family_name (f : family) : string :=
  match f with
  | Products => "products"
  | Memorabilia => "memorabilia"
  | Merchandise => "merchandise"
  end.

(** Keys named after their family: [products:p0], [memorabilia-list-]... *)
Definition by_prefix (f : family) (key : string) : bool :=
  startsWith key (family_name f).

Definition stamp (t : Z) : string := "T" +:+ pretty t.

(** The process of a user who logged in earlier with the pair A1/R1. *)
Definition logged_in : state :=
  boot (<["refresh_token" := "R1"]> (<["access_token" := "A1"]> ∅)) 1000.

(** The process of a visitor. *)
Definition anonymous : state := boot ∅ 1000.

(** A storage that holds an access token only. *)
Definition half_stored : state := boot (<["access_token" := "A1"]> ∅) 1000.

(** The visitor's process after the product list was read through the
    cache under the key [products:p0], with a TTL of five seconds. *)
Definition warm : state :=
  exec (serving one_row) by_prefix stamp
       (CachedRead "products:p0" 5000 false (GetProducts "")) anonymous.

Definition batmobile : ProductCreate.t :=
  {| ProductCreate.title := "Bat  Mobile 1989";
     ProductCreate.subtitle := None;
     ProductCreate.description := Some "The car";
     ProductCreate.product_types := None;
     ProductCreate.movies := Some ["Batman"];
     ProductCreate.genres := None;
     ProductCreate.keywords := None;
     ProductCreate.available_rental_periods := Some [daily; weekly];
     ProductCreate.images := None;
     ProductCreate.is_background_image_activated := None;
     ProductCreate.is_trending_model := Some true;
     ProductCreate.slug := None |}.

(** A server that issues the pair A2/R2 at the refresh endpoint and whose
    connection drops afterwards: it answers 401 before the refresh and
    every later [fetch] rejects. *)
Definition dropping : network :=
  fun tr url init =>
    if String.eqb url (API_BASE_URL +:+ "/v1/auth/refresh")
    then Return (token_response tokens2)
    else if existsb (fun e => match e with RefreshCall => true | _ => false end) tr
    then Throw (JsError "Failed to fetch")
    else Return (error_response 401 "Token expired").

(** A [JSON.parse] that knows two texts. *)
Definition parse_demo (text : string) : outcome (option User.t) :=
  if String.eqb text "{demo}"
  then Return (Some {| User.id := "9"; User.email := "demo@example.com";
                       User.role := "admin" |})
  else if String.eqb text "null" then Return None
  else Throw (JsError "Unexpected token").

Definition sega : LoginCredentials :=
  {| username := "sega@dealertower.com"; password := "secret" |}.

Definition blank_form : MemorabiliaCreate.t :=
  {| MemorabiliaCreate.title := ""; MemorabiliaCreate.subtitle := "";
     MemorabiliaCreate.description := ""; MemorabiliaCreate.photos := [];
     MemorabiliaCreate.keywords := ["prop"; "car"];
     MemorabiliaCreate.product_ids := [] |}.

End Samples.

(** ** Predicates of the specification *)

(** "Held", as the client itself tests it ([!this.refreshToken],
    [!!this.accessToken]). *)
Definition held (token : option string) : Prop := truthy token = true.

(** Spec section 3, TokenPair: "access and refresh are both present or both
    absent (no partial state)". *)
Definition both_or_neither (s : state) : Prop :=
  held (accessToken s) ↔ held (refreshToken s).

(** The server never issues a pair with exactly one empty token. *)
Definition issues_pairs (net : network) : Prop :=
  ∀ tr url init response tokens,
    net tr url init = Return response →
    body_tokens response = Return tokens →
    (access_token tokens = "" ↔ refresh_token tokens = "").

(** Every cached value is the value of the last successful fetch made for
    its key. *)
Definition coherent (s : state) : Prop :=
  ∀ key e, cache s !! key = Some e → fetched s !! key = Some (value e).

(** A method keeps a property of the state, whether it returns or throws. *)
Definition preserves (P : state → Prop) {A} (m : M A) : Prop :=
  ∀ s, P s → P (snd (m s)).

(** The entries into [refreshAccessToken] and the calls of [fetch] on [url]
    among some events. *)
Definition is_refresh_call (e : event) : bool :=
  match e with RefreshCall => true | Fetch _ _ => false end.

Definition refresh_calls (events : list event) : nat :=
  length (List.filter is_refresh_call events).

(** What [getAuthHeaders] returns for the access token in memory. *)
Definition auth_headers (token : option string) : gmap string string :=
  if truthy token
  then <["Authorization" := "Bearer " +:+ default "" token]>
         {[ "Content-Type" := "application/json" ]}
  else {[ "Content-Type" := "application/json" ]}.

(** The [RequestInit] that [request] passes to [fetch] while [token] is the
    access token in memory. *)
Definition sent (options : RequestInit) (token : option string) : RequestInit :=
  with_headers options (spread (auth_headers token) (headers options)).

(** The endpoints of the list methods [getProducts], [searchProducts],
    [getMemorabilia] and [getMerchandise]. *)
Definition is_listing (endpoint : string) : bool :=
  startsWith endpoint "/v1/products/?" ||
  startsWith endpoint "/v1/products/search?" ||
  startsWith endpoint "/v1/memorabilia/?" ||
  startsWith endpoint "/v1/merchandises/?".

(** The [try] block of [request]. *)
Definition request_try (net : network) (endpoint : string)
    (options : RequestInit) : M json :=
  let* response := request_response net (API_BASE_URL +:+ endpoint) options in
  request_result response.

(** The request that [refreshAccessToken] sends for the refresh token it
    holds. *)
Definition refresh_url : string := API_BASE_URL +:+ "/v1/auth/refresh".

Definition refresh_request (token : option string) : RequestInit :=
  {| method := Some "POST";
     headers := {[ "Content-Type" := "application/json" ]};
     body := Some (JsonText (JObj [("refresh_token",
                                    JStr (default "" token))])) |}.

(** The state after [clearTokensFromStorage]. *)
Definition logged_out (s : state) : state :=
  with_tokens None None
    (delete "refresh_token" (delete "access_token" (localStorage s))) s.

(** The request that [login] sends. *)
Definition login_url : string := API_BASE_URL +:+ "/v1/auth/login".

Definition login_request (credentials : LoginCredentials) : RequestInit :=
  {| method := Some "POST"; headers := ∅;
     body := Some (FormData [("username", username credentials);
                             ("password", password credentials);
                             ("grant_type", "password")]) |}.


(** Every code unit of a string passes a test. *)
Fixpoint every_unit (test : ascii → bool) (s : string) : bool :=
  match s with
  | EmptyString => true
  | String c s' => test c && every_unit test s'
  end.

(** A capital letter A-Z. *)
Definition is_capital (c : ascii) : bool :=
  let n := N_of_ascii c in ((65 <=? n) && (n <=? 90))%N.

(** The letters that have a small form, below 256, each with its small
    letter: A-Z, and by their codes the capitals of Latin-1 (U+00C0..U+00DE
    without the multiplication sign) with U+00E0..U+00FE (without the
    division sign). *)
Definition latin1_capitals : list N :=
  [192; 193; 194; 195; 196; 197; 198; 199; 200; 201; 202; 203; 204; 205; 206;
   207; 208; 209; 210; 211; 212; 213; 214; 216; 217; 218; 219; 220; 221;
   222]%N.

Definition latin1_smalls : list N :=
  [224; 225; 226; 227; 228; 229; 230; 231; 232; 233; 234; 235; 236; 237; 238;
   239; 240; 241; 242; 243; 244; 245; 246; 248; 249; 250; 251; 252; 253;
   254]%N.

Definition letters : list (ascii * ascii) :=
  (zip (String.list_ascii_of_string "ABCDEFGHIJKLMNOPQRSTUVWXYZ")
       (String.list_ascii_of_string "abcdefghijklmnopqrstuvwxyz") ++
   zip (ascii_of_N <$> latin1_capitals) (ascii_of_N <$> latin1_smalls))%list.

(** [l] is [c] in lower case: its small letter if [c] is a capital of the
    table, and [c] itself otherwise. *)
Definition lowers_to (c l : ascii) : Prop :=
  (c, l) ∈ letters ∨ (c ∉ fst <$> letters) ∧ l = c.

(** "Lowercased": unit by unit. *)
Inductive lowercase_of : string → string → Prop :=
| lowercase_end : lowercase_of "" ""
| lowercase_unit c l s t :
    lowers_to c l → lowercase_of s t →
    lowercase_of (String c s) (String l t).

(** White space below 256, by its codes: TAB, LF, VT, FF, CR, the space and
    the no-break space. *)
Definition white_space (c : ascii) : bool :=
  bool_decide (N_of_ascii c ∈ [9; 10; 11; 12; 13; 32; 160]%N).

(** Fit for a slug: neither white space nor a capital letter. *)
Definition slug_unit (c : ascii) : bool :=
  negb (white_space c) && negb (is_capital c).

Definition starts_white (s : string) : bool :=
  match s with
  | String c _ => white_space c
  | EmptyString => false
  end.

(** "Hyphenated": the text is cut into its units that are not white space,
    each kept, and its maximal runs of white space, each turned into one
    hyphen. *)
Inductive hyphenated_of : string → string → Prop :=
| hyphenated_end : hyphenated_of "" ""
| hyphenated_unit c s t :
    white_space c = false → hyphenated_of s t →
    hyphenated_of (String c s) (String c t)
| hyphenated_run blank s t :
    blank ≠ "" → every_unit white_space blank = true → starts_white s = false →
    hyphenated_of s t →
    hyphenated_of (blank +:+ s) (String "-" t).

(** "The lowercased hyphenated title". *)
Definition slug_of (title slug : string) : Prop :=
  ∃ lowered, lowercase_of title lowered ∧ hyphenated_of lowered slug.



(** The storage asks for the demo session: [demo_auth] is "true" and
    [demo_user] is a non-empty text. *)
Definition demo_mode (s : state) : bool :=
  bool_decide (localStorage s !! "demo_auth" = Some "true") &&
  truthy (localStorage s !! "demo_user").

(** The user that [checkAuth] sets for a client that holds a token. *)
Definition default_admin : User.t :=
  {| User.id := "1"; User.email := "sega@dealertower.com";
     User.role := "admin" |}.

(** The error that the context's [login] throws. *)
Definition invalid_credentials : exn :=
  JsError "Invalid credentials. Please contact your administrator.".

(** The tags of the form are distinct and none is empty. *)
Definition tidy (tags : list string) : Prop :=
  NoDup tags ∧ Forall (fun tag => tag ≠ "") tags.

Definition tags_of (f : TagForm) : list string :=
  MemorabiliaCreate.keywords (formData f).

(** What [request_result] throws for a response that is not 2xx, and what
    it ends with for any response, as functions of the response. *)
Definition error_of (response : Response) : exn :=
  let errorData :=
    match body_json response with Return doc => doc | Throw _ => JObj [] end in
  match get_property errorData "detail" with
  | Throw e => e
  | Return detail =>
      if js_truthy detail then
        match ToString (default JNull detail) with
        | Return text => JsError text
        | Throw e => e
        end
      else JsError (http_error (status response))
  end.

Definition result_of (response : Response) : outcome json :=
  if negb (ok response) then Throw (error_of response)
  else if status response =? 204 then Return (JObj [])
  else body_json response.

(** * Properties *)

Ltac monad := unfold bind, ret, throw, try_catch, await, gets, modify in *.

(** ** Strings *)

Lemma prefix_append (p s t : string) :
  String.prefix p s = true → String.prefix p (s +:+ t) = true.
Proof.
  revert s. induction p as [|c p IH]; intros s.
  { intros _. by destruct (s +:+ t). }
  destruct s as [|d s]; simpl; [done|].
  destruct (Ascii.ascii_dec c d); [apply IH | done].
Qed.

Lemma includes_append (s t sub : string) :
  includes s sub = true → includes (s +:+ t) sub = true.
Proof.
  induction s as [|c s IH]; simpl.
  - rewrite orb_false_r. intros H. destruct sub; [|done].
    destruct t; reflexivity.
  - intros [H|H]%orb_true_iff; apply orb_true_iff.
    + left. by apply (prefix_append sub (String c s) t).
    + right. by apply IH.
Qed.

Lemma prefix_split (p s : string) :
  String.prefix p s = true → ∃ t, s = p +:+ t.
Proof.
  revert s. induction p as [|c p IH]; intros s; [by exists s|].
  destruct s as [|d s]; simpl; [done|].
  destruct (Ascii.ascii_dec c d) as [->|]; [|done].
  intros [t ->]%IH. by exists t.
Qed.

Lemma fallback_applies_append (endpoint rest : string) :
  fallback_applies endpoint = true →
  fallback_applies (endpoint +:+ rest) = true.
Proof.
  unfold fallback_applies.
  intros [[H|H]%orb_true_iff|H]%orb_true_iff.
  - by rewrite (includes_append _ _ _ H).
  - by rewrite (includes_append _ _ _ H), orb_true_r.
  - by rewrite (includes_append _ _ _ H), !orb_true_r.
Qed.

Lemma listing_falls_back (endpoint : string) :
  is_listing endpoint = true → fallback_applies endpoint = true.
Proof.
  unfold is_listing, startsWith.
  intros [[[H|H]%orb_true_iff|H]%orb_true_iff|H]%orb_true_iff;
    apply prefix_split in H as [t ->]; by apply fallback_applies_append.
Qed.

(** ** The rules of [preserves] *)

Section Preserves.

Variable P : state → Prop.

Lemma preserves_ret {A} (a : A) : preserves P (ret a).
Proof. by intros s. Qed.

Lemma preserves_throw {A} (e : exn) : preserves P (@throw A e).
Proof. by intros s. Qed.

Lemma preserves_await {A} (p : outcome A) : preserves P (await p).
Proof. by intros s. Qed.

Lemma preserves_gets {A} (f : state → A) : preserves P (gets f).
Proof. by intros s. Qed.

Lemma preserves_bind {A B} (m : M A) (k : A → M B) :
  preserves P m → (∀ a, preserves P (k a)) → preserves P (bind m k).
Proof.
  intros Hm Hk s Hs. unfold bind. specialize (Hm s Hs).
  destruct (m s) as [[a|e] s']; simpl in *; [by apply Hk | done].
Qed.

Lemma preserves_try_catch {A} (m : M A) (h : exn → M A) :
  preserves P m → (∀ e, preserves P (h e)) → preserves P (try_catch m h).
Proof.
  intros Hm Hh s Hs. unfold try_catch. specialize (Hm s Hs).
  destruct (m s) as [[a|e] s']; simpl in *; [done | by apply Hh].
Qed.

End Preserves.

Create HintDb preserves.

#[local] Hint Resolve preserves_ret preserves_throw preserves_await
  preserves_gets : preserves.

Ltac preserving :=
  repeat (intros; lazymatch goal with
    | |- preserves _ (bind _ _) => apply preserves_bind
    | |- preserves _ (try_catch _ _) => apply preserves_try_catch
    | |- preserves _ (if ?b then _ else _) => destruct b
    | |- preserves _ (match ?x with _ => _ end) => destruct x
    | |- preserves _ _ => solve [eauto with preserves]
    end).

(** ** The Credential Store *)

Section CredentialStore.

Variable net : network.

Lemma refresh_without_token (s : state) :
  truthy (refreshToken s) = false →
  refreshAccessToken net s =
    (Throw (JsError "No refresh token available"),
     with_trace (trace s ++ [RefreshCall]) s).
Proof. intros H. unfold refreshAccessToken. monad. simpl. by rewrite H. Qed.

(** With a token held, [refreshAccessToken] asks the server once and ends
    either with the new pair saved or with the store cleared. *)
Lemma refresh_with_token (s : state) :
  truthy (refreshToken s) = true →
  let asked :=
    with_trace (trace s ++ [RefreshCall;
                            Fetch refresh_url (refresh_request (refreshToken s))])
               s in
  (∃ e, refreshAccessToken net s = (Throw e, logged_out asked)) ∨
  (∃ response tokens,
     net (trace s ++ [RefreshCall])%list refresh_url
         (refresh_request (refreshToken s)) = Return response ∧
     body_tokens response = Return tokens ∧
     refreshAccessToken net s =
       (Return tokens,
        with_tokens (Some (access_token tokens)) (Some (refresh_token tokens))
          (<["refresh_token" := refresh_token tokens]>
             (<["access_token" := access_token tokens]> (localStorage s)))
          asked)).
Proof.
  intros H asked. unfold refreshAccessToken, fetch. monad. simpl. rewrite H. simpl.
  fold refresh_url. fold (refresh_request (refreshToken s)).
  destruct (net _ refresh_url _) as [response|e] eqn:Hnet; simpl.
  - destruct (ok response); simpl.
    + destruct (body_tokens response) as [tokens|e] eqn:Htok; simpl.
      * right. exists response, tokens. repeat split; try done.
        unfold saveTokensToStorage, asked. monad. simpl.
        by rewrite <- app_assoc.
      * left. exists e. unfold clearTokensFromStorage, logged_out, asked.
        monad. simpl. by rewrite <- app_assoc.
    + destruct (body_error response) as [d|e]; simpl; left; eexists;
        unfold clearTokensFromStorage, logged_out, asked; monad; simpl;
        by rewrite <- app_assoc.
  - left. exists e. unfold clearTokensFromStorage, logged_out, asked.
    monad. simpl. by rewrite <- app_assoc.
Qed.

Lemma refresh_failure_clears (s s' : state) (e : exn) :
  truthy (refreshToken s) = true →
  refreshAccessToken net s = (Throw e, s') →
  s' = logged_out
         (with_trace (trace s ++ [RefreshCall;
                        Fetch refresh_url (refresh_request (refreshToken s))])
                     s).
Proof.
  intros H Hr. destruct (refresh_with_token s H) as [[e' He]|(r & t & _ & _ & He)];
    rewrite He in Hr; by simplify_eq.
Qed.

End CredentialStore.

(** ** Properties kept along every run *)

Section Invariant.

Variable net : network.
Variable belongs : family → string → bool.
Variable toISOString : Z → string.

Variable P : state → Prop.

Hypothesis P_trace : ∀ tr s, P s → P (with_trace tr s).
Hypothesis P_clock : ∀ t s, P s → P (with_clock t s).
Hypothesis P_clear : preserves P clearTokensFromStorage.
Hypothesis P_login : ∀ credentials, preserves P (login net credentials).
Hypothesis P_refresh : preserves P (refreshAccessToken net).
Hypothesis P_invalidate : ∀ f, preserves P (invalidate belongs f).
Hypothesis P_write : ∀ key v cacheTTL, preserves P (cache_write key v cacheTTL).
Hypothesis P_record : ∀ key v, preserves P (record_fetch key v).

Lemma preserves_fetch url init : preserves P (fetch net url init).
Proof. intros s Hs. by apply P_trace. Qed.

Lemma preserves_sleep ms : preserves P (sleep ms).
Proof. intros s Hs. by apply P_clock. Qed.

#[local] Hint Resolve preserves_fetch preserves_sleep P_clear P_login
  P_refresh P_invalidate P_write P_record : preserves.
#[local] Hint Unfold logout isAuthenticated getAuthHeaders getAccessToken
  invalidateProductCache invalidateMemorabiliaCache
  invalidateMerchandiseCache advance : preserves.

Lemma preserves_request endpoint options :
  preserves P (request net endpoint options).
Proof.
  unfold request, request_response, request_result, request_catch.
  preserving.
Qed.

#[local] Hint Resolve preserves_request : preserves.

Lemma preserves_call c : preserves P (call net c).
Proof.
  destruct c; simpl;
    unfold getProducts, searchProducts, getProduct, getMemorabilia,
      getMemorabiliaItem, getMerchandise, getMerchandiseItem;
    preserving.
Qed.

Lemma preserves_createProduct data :
  preserves P (createProduct toISOString data).
Proof. unfold createProduct. preserving. Qed.

#[local] Hint Resolve preserves_call preserves_createProduct : preserves.

Lemma preserves_perform m : preserves P (perform net belongs toISOString m).
Proof.
  destruct m; simpl;
    unfold updateProduct, deleteProduct, createMemorabilia, updateMemorabilia,
      deleteMemorabilia, createMerchandise, updateMerchandise,
      deleteMerchandise;
    preserving.
Qed.

Lemma preserves_cached_read key cacheTTL swr (fetcher : M json) :
  preserves P fetcher →
  preserves P (cached_read key cacheTTL swr fetcher).
Proof.
  intros Hf. unfold cached_read.
  apply preserves_bind; [auto with preserves|]. intros now.
  apply preserves_bind; [auto with preserves|]. intros entry.
  preserving.
Qed.

(** An action keeps [P] as soon as the cached reads of the pages do. *)
Lemma preserves_exec_with a s :
  (∀ key cacheTTL swr c,
     preserves P (cached_read key cacheTTL swr (observed key (call net c)))) →
  P s → P (exec net belongs toISOString a s).
Proof.
  intros Hcached Hs. destruct a; simpl.
  - by apply P_login.
  - by apply P_refresh.
  - by apply P_clear.
  - by apply preserves_call.
  - by apply Hcached.
  - by apply preserves_perform.
  - revert s Hs. change (preserves P (uploadFile net file)).
    unfold uploadFile. preserving.
  - revert s Hs. change (preserves P (deleteFile net query)).
    unfold deleteFile. preserving.
  - by apply preserves_sleep.
Qed.

Lemma preserves_exec_all_with actions s :
  (∀ key cacheTTL swr c,
     preserves P (cached_read key cacheTTL swr (observed key (call net c)))) →
  P s → P (exec_all net belongs toISOString actions s).
Proof.
  intros Hcached. revert s.
  induction actions as [|a actions IH]; intros s Hs; simpl; [done|].
  apply IH. by apply preserves_exec_with.
Qed.

Lemma preserves_exec a s :
  P s → P (exec net belongs toISOString a s).
Proof.
  apply preserves_exec_with. intros key cacheTTL swr c.
  apply preserves_cached_read. unfold observed. preserving.
Qed.

Lemma preserves_exec_all actions s :
  P s → P (exec_all net belongs toISOString actions s).
Proof.
  revert s. induction actions as [|a actions IH]; intros s Hs; simpl; [done|].
  apply IH. by apply preserves_exec.
Qed.

End Invariant.

(** ** The token pair *)

Lemma truthy_Some (x : string) : truthy (Some x) = true ↔ x ≠ "".
Proof. destruct x; simpl; split; congruence. Qed.

Lemma both_or_neither_saved (tokens : TokenResponse) st (s : state) :
  (access_token tokens = "" ↔ refresh_token tokens = "") →
  both_or_neither
    (with_tokens (Some (access_token tokens)) (Some (refresh_token tokens))
                 st s).
Proof.
  intros H. unfold both_or_neither, held, with_tokens.
  cbn [accessToken refreshToken]. rewrite !truthy_Some. tauto.
Qed.

Lemma clear_both_or_neither : preserves both_or_neither clearTokensFromStorage.
Proof. by intros s _. Qed.

Lemma login_both_or_neither (net : network) credentials :
  issues_pairs net → preserves both_or_neither (login net credentials).
Proof.
  intros Hnet s Hs. unfold login, fetch. monad. simpl.
  destruct (net _ _ _) as [response|e] eqn:Hr; simpl; [|done].
  destruct (ok response); simpl.
  - destruct (body_tokens response) as [tokens|e] eqn:Ht; simpl; [|done].
    apply both_or_neither_saved. by eapply Hnet.
  - by destruct (body_error response).
Qed.

Lemma refresh_both_or_neither (net : network) :
  issues_pairs net → preserves both_or_neither (refreshAccessToken net).
Proof.
  intros Hnet s Hs.
  destruct (truthy (refreshToken s)) eqn:Hheld.
  - destruct (refresh_with_token net s Hheld)
      as [[e ->]|(response & tokens & Hr & Ht & ->)]; simpl; [done|].
    apply both_or_neither_saved. by eapply Hnet.
  - by rewrite refresh_without_token.
Qed.

Lemma boot_both_or_neither (storage : gmap string string) (now : Z) :
  both_or_neither (boot storage now) ↔
  (held (storage !! "access_token") ↔ held (storage !! "refresh_token")).
Proof. reflexivity. Qed.

(** C6, as amended.  The constructor copies the two storage items one by
    one, so the pair it builds is both-or-neither exactly when the storage
    is; from there every run of the client (login, refresh and logout, and
    the API calls that refresh or log out on their own) keeps the access
    token held iff the refresh token is held, against a server that never
    issues a pair with exactly one empty token. *)
Theorem both_or_neither_along_runs
    (net : network) (belongs : family → string → bool)
    (toISOString : Z → string)
    (storage : gmap string string) (now : Z) (actions : list action) :
  (held (storage !! "access_token") ↔ held (storage !! "refresh_token")) →
  issues_pairs net →
  both_or_neither
    (exec_all net belongs toISOString actions (boot storage now)).
Proof.
  intros Hstorage Hnet. apply preserves_exec_all.
  - by intros tr s.
  - by intros t s.
  - apply clear_both_or_neither.
  - intros c. by apply login_both_or_neither.
  - by apply refresh_both_or_neither.
  - by intros f s.
  - by intros key v cacheTTL s.
  - by intros key v s.
  - by apply boot_both_or_neither.
Qed.

(** C6, refuted as stated: a storage that holds [access_token] alone is
    hydrated into an access token without a refresh token. *)
Lemma hydration_can_build_half_a_pair :
  held (accessToken Samples.half_stored) ∧
  ¬ held (refreshToken Samples.half_stored) ∧
  ¬ both_or_neither Samples.half_stored.
Proof.
  split; [reflexivity|]. split.
  - intros H. discriminate H.
  - intros [H _]. specialize (H eq_refl). discriminate H.
Qed.

(** The condition on the server is needed as well: a login answered with an
    empty access token leaves the refresh token alone held. *)
Example login_can_build_half_a_pair :
  let lopsided : network := fun _ _ _ =>
    Return (Samples.token_response
              {| access_token := ""; refresh_token := "R9";
                 token_type := "bearer" |}) in
  ¬ both_or_neither
      (snd (login lopsided {| username := "u"; password := "p" |}
                  Samples.anonymous)).
Proof. intros lopsided [_ H]. specialize (H eq_refl). discriminate H. Qed.

(** C10.  Without a refresh token [refreshAccessToken] throws at its first
    test: no request is sent, and the tokens in memory and in the storage
    are those of before, so an access token held before is still held. *)
Theorem refresh_without_token_changes_nothing (net : network) (s : state) :
  ¬ held (refreshToken s) →
  ∃ s',
    refreshAccessToken net s =
      (Throw (JsError "No refresh token available"), s') ∧
    accessToken s' = accessToken s ∧
    refreshToken s' = refreshToken s ∧
    localStorage s' = localStorage s ∧
    fst (isAuthenticated s') = fst (isAuthenticated s) ∧
    trace s' = (trace s ++ [RefreshCall])%list.
Proof.
  intros H. exists (with_trace (trace s ++ [RefreshCall]) s).
  split; [|done]. apply refresh_without_token.
  unfold held in H. by destruct (truthy (refreshToken s)).
Qed.

(** C5, as amended.  When [refreshAccessToken] fails with a refresh token
    held (the server refuses, the transport fails, the body cannot be
    read), the store is cleared: [isAuthenticated] answers false and
    [getAuthHeaders] has no [Authorization]. *)
Theorem failed_refresh_with_token_logs_out
    (net : network) (s s' : state) (e : exn) :
  held (refreshToken s) →
  refreshAccessToken net s = (Throw e, s') →
  fst (isAuthenticated s') = Return false ∧
  ∃ h, fst (getAuthHeaders s') = Return h ∧ h !! "Authorization" = None.
Proof.
  intros Hheld Hr. rewrite (refresh_failure_clears net s s' e Hheld Hr).
  split; [reflexivity|]. eexists. split; [reflexivity|]. done.
Qed.

(** C5, refuted as stated: with an access token but no refresh token held,
    the refresh fails and the client is as authenticated as before. *)
Lemma failed_refresh_can_leave_authenticated :
  let r := refreshAccessToken Samples.offline Samples.half_stored in
  fst r = Throw (JsError "No refresh token available") ∧
  fst (isAuthenticated (snd r)) = Return true ∧
  (∃ h, fst (getAuthHeaders (snd r)) = Return h ∧
        h !! "Authorization" = Some "Bearer A1").
Proof.
  split; [reflexivity|]. split; [reflexivity|].
  eexists. split; [reflexivity|]. by vm_compute.
Qed.

(** ** The request pipeline *)

Section Pipeline.

Variable net : network.

Lemma request_eq endpoint options :
  request net endpoint options =
  try_catch (request_try net endpoint options) (request_catch endpoint).
Proof. reflexivity. Qed.

(** The [catch] block: an endpoint that passes its test never throws. *)
Lemma request_degrades endpoint options (s s' : state) (e : exn) :
  fallback_applies endpoint = true →
  request_try net endpoint options s = (Throw e, s') →
  request net endpoint options s = (Return (empty_list e), s').
Proof.
  intros Hf He. rewrite request_eq. unfold try_catch, request_catch.
  by rewrite He, Hf.
Qed.

Lemma request_propagates endpoint options (s s' : state) (e : exn) :
  fallback_applies endpoint = false →
  request_try net endpoint options s = (Throw e, s') →
  request net endpoint options s = (Throw e, s').
Proof.
  intros Hf He. rewrite request_eq. unfold try_catch, request_catch.
  by rewrite He, Hf.
Qed.

Lemma request_returns endpoint options (s s' : state) (v : json) :
  request_try net endpoint options s = (Return v, s') →
  request net endpoint options s = (Return v, s').
Proof. intros Hv. rewrite request_eq. unfold try_catch. by rewrite Hv. Qed.

Lemma request_never_throws_on_fallback endpoint options (s : state) :
  fallback_applies endpoint = true →
  ∃ v, fst (request net endpoint options s) = Return v.
Proof.
  intros Hf.
  destruct (request_try net endpoint options s) as [[v|e] s'] eqn:Ht.
  - exists v. by rewrite (request_returns _ _ _ _ _ Ht).
  - exists (empty_list e). by rewrite (request_degrades _ _ _ _ _ Hf Ht).
Qed.

(** The family endpoints all pass the test of the [catch] block, lists,
    details and writes alike. *)
Lemma products_fall_back rest : fallback_applies ("/v1/products/" +:+ rest) = true.
Proof. by apply fallback_applies_append. Qed.

Lemma memorabilia_fall_back rest :
  fallback_applies ("/v1/memorabilia/" +:+ rest) = true.
Proof. by apply fallback_applies_append. Qed.

Lemma merchandises_fall_back rest :
  fallback_applies ("/v1/merchandises/" +:+ rest) = true.
Proof. by apply fallback_applies_append. Qed.

(** A list method turns every failure of the steps before into the empty
    list that carries the message. *)
Lemma getProducts_degrades query (s s' : state) (e : exn) :
  request_try net ("/v1/products/?" +:+ query) no_options s = (Throw e, s') →
  getProducts net query s = (Return (empty_list e), s').
Proof.
  apply request_degrades.
  by apply (fallback_applies_append "/v1/products/" ("?" +:+ query)).
Qed.

Lemma listing_failure_degrades endpoint options (s s' : state) (e : exn) :
  is_listing endpoint = true →
  request_try net endpoint options s = (Throw e, s') →
  request net endpoint options s = (Return (empty_list e), s').
Proof. intros H%listing_falls_back. by apply request_degrades. Qed.

Lemma getProduct_never_throws idOrSlug (s : state) :
  ∃ v, fst (getProduct net idOrSlug s) = Return v.
Proof.
  destruct (request_never_throws_on_fallback ("/v1/products/" +:+ idOrSlug)
              no_options s (products_fall_back idOrSlug)) as [v Hv].
  exists v. unfold getProduct, try_catch.
  destruct (request _ _ _ s) as [[v'|e] s']; simpl in *; congruence.
Qed.

(** The first dispatch. *)
Lemma request_response_plain url options (s : state) (first : Response) :
  net (trace s) url (sent options (accessToken s)) = Return first →
  (status first =? 401) && truthy (accessToken s) = false →
  request_response net url options s =
    (Return first,
     with_trace (trace s ++ [Fetch url (sent options (accessToken s))]) s).
Proof.
  intros Hfirst Htest. unfold request_response, fetch. monad. simpl.
  fold (auth_headers (accessToken s)). fold (sent options (accessToken s)).
  rewrite Hfirst. simpl. by rewrite Htest.
Qed.

Lemma request_response_offline url options (s : state) (e : exn) :
  net (trace s) url (sent options (accessToken s)) = Throw e →
  request_response net url options s =
    (Throw e,
     with_trace (trace s ++ [Fetch url (sent options (accessToken s))]) s).
Proof.
  intros Hfirst. unfold request_response, fetch. monad. simpl.
  fold (auth_headers (accessToken s)). fold (sent options (accessToken s)).
  by rewrite Hfirst.
Qed.

(** The handling of a 401 received with an access token held: one refresh,
    then at most one more dispatch, with the headers of that moment. *)
Lemma request_response_401 url options (s : state) (first : Response) :
  net (trace s) url (sent options (accessToken s)) = Return first →
  status first = 401 →
  truthy (accessToken s) = true →
  request_response net url options s =
    match refreshAccessToken net
            (with_trace (trace s ++ [Fetch url (sent options (accessToken s))]) s)
    with
    | (Throw _, s2) => (Throw session_expired, logged_out s2)
    | (Return _, s2) =>
        let s3 :=
          with_trace (trace s2 ++ [Fetch url (sent options (accessToken s2))]) s2 in
        match net (trace s2) url (sent options (accessToken s2)) with
        | Return response => (Return response, s3)
        | Throw _ => (Throw session_expired, logged_out s3)
        end
    end.
Proof.
  intros Hfirst H401 Hheld. unfold request_response, fetch. monad. simpl.
  fold (auth_headers (accessToken s)). fold (sent options (accessToken s)).
  rewrite Hfirst. simpl. rewrite H401, Hheld. simpl.
  destruct (refreshAccessToken net _) as [[t|e] s2]; simpl; [|done].
  fold (auth_headers (accessToken s2)). fold (sent options (accessToken s2)).
  by destruct (net (trace s2) url _).
Qed.

End Pipeline.

Lemma request_result_eq (response : Response) (s : state) :
  request_result response s = (result_of response, s).
Proof.
  unfold request_result, result_of, error_of. monad.
  destruct (ok response); simpl.
  - by destruct (status response =? 204).
  - destruct (body_json response) as [doc|e]; simpl.
    + destruct (get_property doc "detail") as [detail|e]; simpl; [|done].
      destruct (js_truthy detail); simpl; [|done].
      by destruct (ToString (default JNull detail)).
    + by destruct (http_error (status response)).
Qed.

Section Unauthorized.

Variable net : network.

(** Neither the handling of the response nor the [catch] block touches the
    state. *)
Lemma request_state endpoint options (s : state) :
  snd (request net endpoint options s) =
  snd (request_response net (API_BASE_URL +:+ endpoint) options s).
Proof.
  unfold request, request_catch. monad.
  destruct (request_response net _ options s) as [[response|e] s']; simpl.
  - rewrite request_result_eq.
    destruct (result_of response); simpl; [done|].
    by destruct (fallback_applies endpoint).
  - by destruct (fallback_applies endpoint).
Qed.

Lemma request_of_failed_response endpoint options (s s' : state) (e : exn) :
  request_response net (API_BASE_URL +:+ endpoint) options s = (Throw e, s') →
  request net endpoint options s =
    (if fallback_applies endpoint then Return (empty_list e) else Throw e, s').
Proof.
  intros He. unfold request, request_catch. monad. rewrite He.
  by destruct (fallback_applies endpoint).
Qed.

Lemma request_401_refresh_failed endpoint options (s s2 : state)
    (first : Response) (e : exn) :
  let url := API_BASE_URL +:+ endpoint in
  net (trace s) url (sent options (accessToken s)) = Return first →
  status first = 401 →
  truthy (accessToken s) = true →
  refreshAccessToken net
    (with_trace (trace s ++ [Fetch url (sent options (accessToken s))]) s) =
    (Throw e, s2) →
  request net endpoint options s =
    (if fallback_applies endpoint then Return (empty_list session_expired)
     else Throw session_expired,
     logged_out s2).
Proof.
  intros url Hfirst H401 Hheld Hrefresh.
  apply request_of_failed_response. fold url.
  rewrite (request_response_401 net url options s first Hfirst H401 Hheld).
  by rewrite Hrefresh.
Qed.

Lemma request_401_refreshed endpoint options (s s2 : state)
    (first : Response) (tokens : TokenResponse) :
  let url := API_BASE_URL +:+ endpoint in
  net (trace s) url (sent options (accessToken s)) = Return first →
  status first = 401 →
  truthy (accessToken s) = true →
  refreshAccessToken net
    (with_trace (trace s ++ [Fetch url (sent options (accessToken s))]) s) =
    (Return tokens, s2) →
  trace (snd (request net endpoint options s)) =
    (trace s2 ++ [Fetch url (sent options (accessToken s2))])%list.
Proof.
  intros url Hfirst H401 Hheld Hrefresh.
  rewrite request_state. fold url.
  rewrite (request_response_401 net url options s first Hfirst H401 Hheld).
  rewrite Hrefresh. simpl. by destruct (net (trace s2) url _).
Qed.

End Unauthorized.

Lemma session_expired_outcome (endpoint : string) :
  let outcome : outcome json :=
    if fallback_applies endpoint then Return (empty_list session_expired)
    else Throw session_expired in
  (fallback_applies endpoint = false → outcome = Throw session_expired) ∧
  (is_listing endpoint = true → outcome = Return (empty_list session_expired)).
Proof.
  simpl. split.
  - by intros ->.
  - intros H%listing_falls_back. by rewrite H.
Qed.

(** C2, as amended.  A first answer 401 received with an access token held
    makes [request] enter [refreshAccessToken] once.  If the refresh fails,
    nothing more is sent for the request (at most the one request of the
    refresh itself went out), the tokens are cleared from memory and from
    the storage, and the call ends with the session-expired error: thrown
    when the endpoint names none of the three families, handed back as the
    diagnostic of the empty list on a list endpoint.  If the refresh
    succeeds, the
    request is sent once more and no further refresh is tried. *)
Theorem one_refresh_one_retry
    (net : network) (endpoint : string) (options : RequestInit)
    (s : state) (first : Response) :
  let url := API_BASE_URL +:+ endpoint in
  let s1 :=
    with_trace (trace s ++ [Fetch url (sent options (accessToken s))]) s in
  let r := request net endpoint options s in
  net (trace s) url (sent options (accessToken s)) = Return first →
  status first = 401 →
  held (accessToken s) →
  ∃ new,
    trace (snd r) = (trace s1 ++ new)%list ∧
    refresh_calls new = 1%nat ∧
    match fst (refreshAccessToken net s1) with
    | Throw _ =>
        (new = [RefreshCall] ∨
         new = [RefreshCall;
                Fetch refresh_url (refresh_request (refreshToken s))]) ∧
        accessToken (snd r) = None ∧
        refreshToken (snd r) = None ∧
        localStorage (snd r) !! "access_token" = None ∧
        localStorage (snd r) !! "refresh_token" = None ∧
        (fallback_applies endpoint = false → fst r = Throw session_expired) ∧
        (is_listing endpoint = true →
         fst r = Return (empty_list session_expired))
    | Return tokens =>
        new = [RefreshCall;
               Fetch refresh_url (refresh_request (refreshToken s));
               Fetch url (sent options (Some (access_token tokens)))]
    end.
Proof.
  intros url s1 r Hfirst H401 Hheld. unfold held in Hheld.
  destruct (truthy (refreshToken s)) eqn:Htoken.
  - (* a refresh token is held: the server is asked *)
    destruct (refresh_with_token net s1 Htoken)
      as [[e He]|(response & tokens & _ & _ & He)].
    + exists [RefreshCall; Fetch refresh_url (refresh_request (refreshToken s))].
      unfold r.
      rewrite (request_401_refresh_failed net endpoint options s _ first e
                 Hfirst H401 Hheld He).
      rewrite He. simpl. rewrite !lookup_delete_eq.
      split; [by rewrite <- app_assoc|].
      split; [done|]. split; [by right|].
      split; [done|]. split; [done|]. split.
      { rewrite lookup_delete_ne by done. apply lookup_delete_eq. }
      split; [done|]. apply session_expired_outcome.
    + exists [RefreshCall; Fetch refresh_url (refresh_request (refreshToken s));
              Fetch url (sent options (Some (access_token tokens)))].
      unfold r.
      rewrite (request_401_refreshed net endpoint options s _ first tokens
                 Hfirst H401 Hheld He).
      rewrite He. simpl. split; [by rewrite <- !app_assoc|done].
  - (* none is held: the refresh throws before it sends anything *)
    pose proof (refresh_without_token net s1 Htoken) as He.
    exists [RefreshCall]. unfold r.
    rewrite (request_401_refresh_failed net endpoint options s _ first _
               Hfirst H401 Hheld He).
    rewrite He. simpl. rewrite !lookup_delete_eq.
    split; [done|]. split; [done|]. split; [by left|].
    split; [done|]. split; [done|]. split.
    { rewrite lookup_delete_ne by done. apply lookup_delete_eq. }
    split; [done|]. apply session_expired_outcome.
Qed.

(** C2, refuted as stated: on a list endpoint the failed refresh does not
    make the call fail; the caller gets an empty list. *)
Lemma session_expiry_can_return_a_list :
  let r := getProducts (Samples.expired false) "" Samples.logged_in in
  held (accessToken Samples.logged_in) ∧
  accessToken (snd r) = None ∧
  refresh_calls (trace (snd r)) = 1%nat ∧
  fst r = Return (empty_list session_expired) ∧
  fst r ≠ Throw session_expired.
Proof. by vm_compute. Qed.

(** ** The headers of the retried request *)

Lemma sent_authorization (options : RequestInit) (token : option string) :
  headers (sent options token) !! "Authorization" =
    match headers options !! "Authorization" with
    | Some own => Some own
    | None => if truthy token then Some ("Bearer " +:+ default "" token)
              else None
    end.
Proof.
  unfold sent, spread, with_headers, auth_headers. cbn [headers].
  rewrite lookup_union.
  destruct (headers options !! "Authorization") as [own|]; simpl.
  - by destruct (_ !! "Authorization").
  - destruct (truthy token); [by rewrite lookup_insert_eq|].
    by rewrite lookup_singleton_ne.
Qed.

(** A request that brings no [Authorization] of its own is retried with
    the refreshed token. *)
Lemma retry_carries_refreshed_token
    (options : RequestInit) (tokens : TokenResponse) :
  headers options !! "Authorization" = None →
  access_token tokens ≠ "" →
  headers (sent options (Some (access_token tokens))) !! "Authorization" =
    Some ("Bearer " +:+ access_token tokens).
Proof.
  intros Hown Hne. rewrite sent_authorization, Hown.
  apply truthy_Some in Hne. by rewrite Hne.
Qed.

(** One that brings its own keeps it, whatever the token in memory. *)
Lemma retry_keeps_own_authorization
    (options : RequestInit) (token : option string) (own : string) :
  headers options !! "Authorization" = Some own →
  headers (sent options token) !! "Authorization" = Some own.
Proof. intros Hown. by rewrite sent_authorization, Hown. Qed.

(** C4, at the failing input.  An upload answered 401 is retried after a
    successful refresh with the [Authorization] that [uploadFile] computed
    on entry: the third request carries [Bearer A1] while the store already
    holds A2, and the server refuses it again. *)
Theorem upload_retry_carries_the_expired_token :
  let r := uploadFile (Samples.expired true) "bytes" Samples.logged_in in
  let url := API_BASE_URL +:+ "/v1/uploads/" in
  accessToken (snd r) = Some "A2" ∧
  (∃ init1 init2 init3,
     trace (snd r) =
       [Fetch url init1; RefreshCall; Fetch refresh_url init2; Fetch url init3] ∧
     headers init3 !! "Authorization" = Some "Bearer A1") ∧
  fst r = Throw (JsError "Token expired").
Proof.
  split; [by vm_compute|]. split; [|by vm_compute].
  eexists _, _, _. split; [by vm_compute|]. by vm_compute.
Qed.

(** ** The degraded-list fallback *)

(** C1, at the failing input.  Fetching one product while the network is
    down does not fail: the endpoint [/v1/products/42] contains the word
    "products", the [catch] block of [request] takes it for a list endpoint
    and hands back the empty list, which [getProduct] returns as if it were
    the product. *)
Theorem getProduct_failure_is_swallowed :
  fst (getProduct Samples.offline "42" Samples.logged_in) =
    Return (empty_list (JsError "Failed to fetch")).
Proof. by vm_compute. Qed.

(** ** The handling of the response *)

Lemma request_of_response (net : network) endpoint options (s s' : state)
    (response : Response) :
  request_response net (API_BASE_URL +:+ endpoint) options s =
    (Return response, s') →
  fst (request net endpoint options s) =
    match result_of response with
    | Return v => Return v
    | Throw e => if fallback_applies endpoint then Return (empty_list e)
                 else Throw e
    end.
Proof.
  intros Hresponse. unfold request, request_catch. monad.
  rewrite Hresponse, request_result_eq.
  destruct (result_of response); [done|].
  by destruct (fallback_applies endpoint).
Qed.

(** C7, as amended.  The response that the pipeline ends with decides the
    call.  On every endpoint a 204 gives the empty object and another 2xx
    whose body is JSON gives the parsed body.  On an endpoint that names
    none of the three families, a 2xx body that is not JSON makes the call
    throw the parse error, and a response that is not 2xx makes it throw:
    an error whose message is the [detail] of the body when that is a
    non-empty string, and the text of a [detail] that is truthy without
    being a string ("true", the digits of a number, "[object Object]", the
    joined elements of an array), or the [TypeError] of an object that
    cannot be turned into text; the generic message that spells the status
    code when the body is not JSON or is a value other than [null] without
    a truthy [detail]; and the [TypeError] of reading [detail] off [null]
    when the body is [null]. *)
Theorem response_handling
    (net : network) (endpoint : string) (options : RequestInit)
    (s s' : state) (response : Response) :
  request_response net (API_BASE_URL +:+ endpoint) options s =
    (Return response, s') →
  let r := fst (request net endpoint options s) in
  let detail_is v :=
    ∃ doc, body_json response = Return doc ∧
           get_property doc "detail" = Return (Some v) in
  (status response = 204 → r = Return (JObj [])) ∧
  (ok response = true → status response ≠ 204 →
   ∀ payload, body_json response = Return payload → r = Return payload) ∧
  (fallback_applies endpoint = false →
   (ok response = true → status response ≠ 204 →
    ∀ e, body_json response = Throw e → r = Throw e) ∧
   (ok response = false →
    (∀ d, detail_is (JStr d) → d ≠ "" → r = Throw (JsError d)) ∧
    (detail_is (JBool true) → r = Throw (JsError "true")) ∧
    (∀ n, detail_is (JNum n) → n ≠ 0 → Z.abs n < 2 ^ 53 →
          r = Throw (JsError (pretty n))) ∧
    (∀ fields, detail_is (JObj fields) →
               r = match own_property fields "toString" with
                   | None => Throw (JsError "[object Object]")
                   | Some _ => Throw cannot_convert_error
                   end) ∧
    (∀ items, detail_is (JArr items) → exact_numbers (JArr items) = true →
              r = match ToString (JArr items) with
                  | Return text => Throw (JsError text)
                  | Throw e => Throw e
                  end) ∧
    ((∀ doc, body_json response = Return doc →
             ∃ detail, get_property doc "detail" = Return detail ∧
                       js_truthy detail = false) →
     r = Throw (JsError ("HTTP error! status: " +:+ pretty (status response)))) ∧
    (body_json response = Return JNull →
     r = Throw (null_property_error "detail")))).
Proof.
  intros Hresponse r detail_is.
  pose proof (request_of_response net endpoint options s s' response
                Hresponse) as Hr.
  fold r in Hr. unfold result_of in Hr.
  split; [|split].
  - intros H204. rewrite Hr. unfold ok. by rewrite H204.
  - intros Hok H204 payload Hbody. rewrite Hr, Hok. simpl.
    apply Z.eqb_neq in H204. by rewrite H204, Hbody.
  - intros Hf. rewrite Hf in Hr. split.
    + intros Hok H204 e Hbody. rewrite Hr, Hok. simpl.
      apply Z.eqb_neq in H204. by rewrite H204, Hbody.
    + intros Hok. rewrite Hok in Hr. simpl in Hr. unfold error_of in Hr.
      split; [|split; [|split; [|split; [|split; [|split]]]]].
      * intros d (doc & Hbody & Hdetail) Hne. rewrite Hr, Hbody, Hdetail.
        simpl. by destruct d.
      * intros (doc & Hbody & Hdetail). by rewrite Hr, Hbody, Hdetail.
      * intros n (doc & Hbody & Hdetail) Hn _. rewrite Hr, Hbody, Hdetail.
        simpl. apply Z.eqb_neq in Hn. by rewrite Hn.
      * intros fields (doc & Hbody & Hdetail). rewrite Hr, Hbody, Hdetail.
        simpl. by destruct (own_property fields "toString").
      * intros items (doc & Hbody & Hdetail) _. rewrite Hr, Hbody, Hdetail.
        change (default JNull (Some (JArr items))) with (JArr items).
        change (js_truthy (Some (JArr items))) with true. cbv iota.
        generalize (ToString (JArr items)). by intros [text|e].
      * intros Hnone. rewrite Hr. unfold http_error.
        destruct (body_json response) as [doc|e]; [|done].
        destruct (Hnone doc eq_refl) as (detail & -> & ->). done.
      * intros Hbody. by rewrite Hr, Hbody.
Qed.

(** C7, refuted as stated: the error of a 404 and the error of a 500 that
    bring the same [detail] are the same error, no status code is in it;
    and on an endpoint of a family that is not a listing, the same 404
    makes no error at all. *)
Lemma http_error_can_drop_the_status :
  fst (deleteFile (Samples.failing 404 "Boom") "url=x" Samples.anonymous) =
    Throw (JsError "Boom") ∧
  fst (deleteFile (Samples.failing 500 "Boom") "url=x" Samples.anonymous) =
    Throw (JsError "Boom") ∧
  fst (getMemorabiliaItem (Samples.failing 404 "Boom") "7" Samples.anonymous) =
    Return (JObj [("rows", JArr []); ("total", JNum 0); ("offset", JNum 0);
                  ("error", JStr "Boom")]).
Proof. by vm_compute. Qed.

(** The messages at work: a body that is not JSON, a body that is [null],
    a [detail] that is a number, and the list of objects that a validation
    error brings as its [detail]. *)
Example error_messages_by_body :
  let thrown body :=
    fst (deleteFile (Samples.answering 422 body) "url=x" Samples.anonymous) in
  thrown (Throw (JsError "Unexpected token <")) =
    Throw (JsError "HTTP error! status: 422") ∧
  thrown (Return JNull) =
    Throw (JsError "Cannot read properties of null (reading 'detail')") ∧
  thrown (Return (JObj [("detail", JNum 42)])) = Throw (JsError "42") ∧
  thrown (Return (JObj [("detail",
                         JArr [JObj [("msg", JStr "field required")];
                               JObj [("msg", JStr "field required")]])])) =
    Throw (JsError "[object Object],[object Object]").
Proof. by vm_compute. Qed.

(** ** createProduct *)

Example batmobile_slug :
  hyphenate (toLowerCase "Bat  Mobile 1989") = "bat-mobile-1989".
Proof. reflexivity. Qed.

(** The table agrees with [toLowerCase], unit by unit, and names one lower
    case for each unit. *)
Lemma lower_unit_spec (c : ascii) : lowers_to c (lower_unit c).
Proof.
  apply (bool_decide_unpack _).
  destruct c as [[] [] [] [] [] [] [] []]; vm_compute; exact I.
Qed.

Lemma table_functional {A B} (table : list (A * B)) (a : A) (b b' : B) :
  NoDup (fst <$> table) → (a, b) ∈ table → (a, b') ∈ table → b = b'.
Proof.
  induction table as [|[a0 b0] table IH]; intros Hkeys Hb Hb'.
  - by apply elem_of_nil in Hb.
  - apply NoDup_cons in Hkeys as [Hfresh Hkeys].
    apply elem_of_cons in Hb as [Hb|Hb], Hb' as [Hb'|Hb'].
    + congruence.
    + injection Hb as -> ->. destruct Hfresh.
      by apply (list_elem_of_fmap_2 fst _ (a0, b')).
    + injection Hb' as -> ->. destruct Hfresh.
      by apply (list_elem_of_fmap_2 fst _ (a0, b)).
    + by apply IH.
Qed.

Lemma lowers_to_unique (c l : ascii) : lowers_to c l → l = lower_unit c.
Proof.
  intros Hl. pose proof (lower_unit_spec c) as Hm.
  assert (Hkeys : NoDup (fst <$> letters)).
  { apply (bool_decide_unpack _). vm_compute. exact I. }
  destruct Hl as [Hl|[Hl ->]], Hm as [Hm|[Hm Heq]].
  - by apply (table_functional letters c).
  - destruct Hm. by apply (list_elem_of_fmap_2 fst _ (c, l)).
  - destruct Hl. by apply (list_elem_of_fmap_2 fst _ (c, lower_unit c)).
  - done.
Qed.

Lemma toLowerCase_spec (s : string) : lowercase_of s (toLowerCase s).
Proof.
  induction s as [|c s IH]; simpl; constructor; [apply lower_unit_spec|done].
Qed.

Lemma lowercase_of_unique (s t : string) :
  lowercase_of s t → t = toLowerCase s.
Proof.
  induction 1 as [|c l s t Hl _ IH]; [done|].
  simpl. by rewrite (lowers_to_unique c l Hl), IH.
Qed.

(** The class [\s] of the regular expression is the white space of the
    list. *)
Lemma is_space_white (c : ascii) : is_space c = white_space c.
Proof. destruct c as [[] [] [] [] [] [] [] []]; by vm_compute. Qed.

Lemma replace_runs_skip (blank s : string) :
  every_unit white_space blank = true →
  starts_white s = false →
  replace_runs true (blank +:+ s) = replace_runs false s.
Proof.
  intros Hblank Hs. induction blank as [|c blank IH]; simpl in *.
  - destruct s as [|c s]; [done|]. simpl in *.
    by rewrite is_space_white, Hs.
  - apply andb_true_iff in Hblank as [Hc Hblank].
    rewrite is_space_white, Hc. by apply IH.
Qed.

(** The white space that a text begins with, and what follows it. *)
Lemma white_run (s : string) :
  ∃ blank rest,
    s = blank +:+ rest ∧ every_unit white_space blank = true ∧
    starts_white rest = false ∧ (String.length rest ≤ String.length s)%nat.
Proof.
  induction s as [|c s (blank & rest & -> & Hblank & Hrest & Hlen)].
  - by exists "", "".
  - destruct (white_space c) eqn:Hc.
    + exists (String c blank), rest. simpl. rewrite Hc, Hblank.
      repeat split; try done. lia.
    + by exists "", (String c (blank +:+ rest)).
Qed.

Lemma hyphenate_spec (s : string) : hyphenated_of s (hyphenate s).
Proof.
  remember (String.length s) as n eqn:Hn.
  revert s Hn. induction (lt_wf n) as [n _ IH]. intros s ->.
  destruct s as [|c s]; [constructor|].
  unfold hyphenate. simpl. rewrite is_space_white.
  destruct (white_space c) eqn:Hc.
  - destruct (white_run s) as (blank & rest & -> & Hblank & Hrest & Hlen).
    rewrite replace_runs_skip by done.
    apply (hyphenated_run (String c blank) rest); try done.
    + simpl. by rewrite Hc, Hblank.
    + apply (IH (String.length rest)); [simpl; lia|done].
  - constructor; [done|]. apply (IH (String.length s)); [simpl; lia|done].
Qed.

Lemma hyphenated_of_unique (s t : string) :
  hyphenated_of s t → t = hyphenate s.
Proof.
  induction 1 as [|c s t Hc _ IH|blank s t Hne Hblank Hs _ IH]; [done| |].
  - unfold hyphenate. simpl. rewrite is_space_white, Hc. by rewrite IH.
  - destruct blank as [|c blank]; [done|]. simpl in Hblank.
    apply andb_true_iff in Hblank as [Hc Hblank].
    unfold hyphenate. simpl. rewrite is_space_white, Hc.
    rewrite replace_runs_skip by done. by rewrite IH.
Qed.

(** What the source computes, [title.toLowerCase().replace(/\s+/g, '-')],
    is the one lowercased hyphenated title. *)
Lemma slug_of_spec (title slug : string) :
  slug_of title slug ↔ slug = hyphenate (toLowerCase title).
Proof.
  split.
  - intros (lowered & Hl & Hh).
    rewrite (lowercase_of_unique _ _ Hl) in Hh.
    by apply hyphenated_of_unique.
  - intros ->. exists (toLowerCase title).
    split; [apply toLowerCase_spec|apply hyphenate_spec].
Qed.

(** C8.  [createProduct] waits and answers with a product made up from its
    argument: whatever the argument and the state (logged in or not), it
    returns, the title is the one given, the id is "mock-" followed by the
    time at which the wait ends, the slug is the one given or else the
    lowercased hyphenated title, that is
    the one text obtained from the title by putting each capital of the
    table [letters] in its small form and each maximal run of white space
    into one hyphen; and nothing but the clock has moved: no request was
    sent, no cache entry dropped. *)
Theorem createProduct_is_a_mock
    (toISOString : Z → string) (data : ProductCreate.t) (s : state) :
  ∃ product,
    createProduct toISOString data s =
      (Return product, with_clock (clock s + 500) s) ∧
    Product.title product = ProductCreate.title data ∧
    startsWith (Product.id product) "mock-" = true ∧
    Product.id product = "mock-" +:+ pretty (clock s + 500) ∧
    (if truthy (ProductCreate.slug data)
     then Product.slug product = default "" (ProductCreate.slug data)
     else ∀ slug, slug_of (ProductCreate.title data) slug ↔
                  slug = Product.slug product) ∧
    trace (with_clock (clock s + 500) s) = trace s ∧
    cache (with_clock (clock s + 500) s) = cache s.
Proof.
  exists (mockProduct toISOString data (clock s + 500)).
  split; [reflexivity|]. split; [reflexivity|]. split; [|split; [done|]].
  - unfold startsWith. cbn [mockProduct Product.id].
    by apply (prefix_append "mock-" "mock-").
  - split; [|done]. cbn [mockProduct Product.slug].
    destruct (ProductCreate.slug data) as [[|c r]|]; simpl; [|done|];
      intros slug; apply slug_of_spec.
Qed.

(** ** Invalidation *)

Section Invalidation.

Variable net : network.
Variable belongs : family → string → bool.
Variable toISOString : Z → string.

Lemma invalidate_clears f (s : state) key :
  belongs f key = true → cache (snd (invalidate belongs f s)) !! key = None.
Proof.
  intros H. unfold invalidate, modify. simpl.
  apply map_lookup_filter_None. right. intros e _. simpl. congruence.
Qed.

Lemma invalidate_keeps_others f (s : state) key :
  belongs f key = false →
  cache (snd (invalidate belongs f s)) !! key = cache s !! key.
Proof.
  intros H. unfold invalidate, modify. simpl.
  destruct (cache s !! key) as [e|] eqn:He.
  - by apply map_lookup_filter_Some.
  - apply map_lookup_filter_None. by left.
Qed.

(** A read that finds no entry runs the fetch and writes its value. *)
Lemma cached_read_miss key cacheTTL swr (fetcher : M json) (s : state) :
  cache s !! key = None →
  cached_read key cacheTTL swr fetcher s =
    (let* v := fetcher in
     run cache_write key v cacheTTL then
     ret v) s.
Proof. intros H. unfold cached_read. monad. simpl. by rewrite H. Qed.

(** Every mutation but the mock ends, when its request returned, with the
    invalidation of its family. *)
Lemma perform_invalidates m (s : state) :
  is_mock m = false →
  fst (perform net belongs toISOString m s) = Return tt →
  ∃ s1, snd (perform net belongs toISOString m s) =
        snd (invalidate belongs (family_of m) s1).
Proof.
  intros Hm Hr.
  destruct m; try discriminate Hm; simpl in *;
    unfold updateProduct, deleteProduct, createMemorabilia, updateMemorabilia,
      deleteMemorabilia, createMerchandise, updateMerchandise,
      deleteMerchandise, invalidateProductCache, invalidateMemorabiliaCache,
      invalidateMerchandiseCache in *;
    monad;
    destruct (request net _ _ s) as [[v|e] s1]; simpl in *;
    try discriminate Hr; by exists s1.
Qed.

End Invalidation.

(** C3, as amended.  Every mutation other than [createProduct] (the updates
    and deletions of products, and the creations, updates and deletions of
    memorabilia and merchandises) that returns has invalidated the cache of
    its family before it returns: no key of the family has an entry left,
    and the next cached read of such a key runs its fetch and writes the
    value anew. *)
Theorem returned_mutation_has_invalidated
    (net : network) (belongs : family → string → bool)
    (toISOString : Z → string) (m : mutation) (s : state) :
  is_mock m = false →
  fst (perform net belongs toISOString m s) = Return tt →
  let s' := snd (perform net belongs toISOString m s) in
  (∀ key, belongs (family_of m) key = true → cache s' !! key = None) ∧
  (∀ key cacheTTL swr (fetcher : M json),
     belongs (family_of m) key = true →
     cached_read key cacheTTL swr fetcher s' =
       (let* v := fetcher in
        run cache_write key v cacheTTL then
        ret v) s').
Proof.
  intros Hm Hr s'.
  destruct (perform_invalidates net belongs toISOString m s Hm Hr) as [s1 Hs1].
  assert (Hgone : ∀ key, belongs (family_of m) key = true →
                         cache s' !! key = None).
  { intros key Hkey. unfold s'. rewrite Hs1. by apply invalidate_clears. }
  split; [done|].
  intros key cacheTTL swr fetcher Hkey. apply cached_read_miss. by apply Hgone.
Qed.

(** C3, refuted as stated: [createProduct] returns a product and the cached
    list of products is still there, served to the next read without a
    fetch. *)
Lemma createProduct_leaves_the_cache :
  let net := Samples.serving Samples.one_row in
  let r := perform net Samples.by_prefix Samples.stamp
                   (CreateProduct Samples.batmobile) Samples.warm in
  fst r = Return tt ∧
  Samples.by_prefix Products "products:p0" = true ∧
  value <$> cache (snd r) !! "products:p0" = Some Samples.one_row ∧
  cached_read "products:p0" 5000 false (getProducts net "") (snd r) =
    (Return Samples.one_row, snd r).
Proof. by vm_compute. Qed.

(** ** The read-through cache *)

Lemma refresh_trace_grows (net : network) (s : state) :
  ∃ new, trace (snd (refreshAccessToken net s)) = (trace s ++ new)%list.
Proof.
  destruct (truthy (refreshToken s)) eqn:Hheld.
  - destruct (refresh_with_token net s Hheld)
      as [[e ->]|(response & tokens & _ & _ & ->)]; by eexists.
  - rewrite refresh_without_token by done. by eexists.
Qed.

(** Whatever happens next, [request] begins by sending the request with the
    headers of the moment. *)
Lemma request_first_dispatch (net : network) endpoint options (s : state) :
  let url := API_BASE_URL +:+ endpoint in
  ∃ rest,
    trace (snd (request net endpoint options s)) =
      (trace s ++ Fetch url (sent options (accessToken s)) :: rest)%list.
Proof.
  intros url. rewrite request_state. fold url.
  destruct (net (trace s) url (sent options (accessToken s)))
    as [first|e] eqn:Hfirst.
  - destruct ((status first =? 401) && truthy (accessToken s)) eqn:Htest.
    + apply andb_true_iff in Htest as [H401%Z.eqb_eq Hheld].
      rewrite (request_response_401 net url options s first Hfirst H401 Hheld).
      set (s1 := with_trace _ s).
      destruct (refresh_trace_grows net s1) as [new Hnew].
      destruct (refreshAccessToken net s1) as [[tokens|e] s2]; simpl in *.
      * destruct (net (trace s2) url _); simpl; rewrite Hnew;
          rewrite <- !app_assoc; by eexists.
      * rewrite Hnew, <- app_assoc. by eexists.
    + rewrite (request_response_plain net url options s first Hfirst Htest).
      by exists [].
  - rewrite (request_response_offline net url options s e Hfirst). by exists [].
Qed.

Section Coherence.

Variable net : network.
Variable belongs : family → string → bool.
Variable toISOString : Z → string.

Lemma login_coherent credentials : preserves coherent (login net credentials).
Proof.
  intros s Hs. unfold login, fetch. monad. simpl.
  destruct (net _ _ _) as [response|e]; simpl; [|done].
  destruct (ok response); simpl.
  - by destruct (body_tokens response).
  - by destruct (body_error response).
Qed.

Lemma refresh_coherent : preserves coherent (refreshAccessToken net).
Proof.
  intros s Hs.
  destruct (truthy (refreshToken s)) eqn:Hheld.
  - by destruct (refresh_with_token net s Hheld)
      as [[e ->]|(response & tokens & _ & _ & ->)].
  - by rewrite refresh_without_token.
Qed.

Lemma invalidate_coherent f : preserves coherent (invalidate belongs f).
Proof.
  intros s Hs key e. unfold invalidate, modify. simpl.
  intros [He _]%map_lookup_filter_Some. by apply Hs.
Qed.

(** The read methods leave the cache and the bookkeeping alone. *)
Lemma call_keeps_cache c (s : state) :
  cache (snd (call net c s)) = cache s ∧
  fetched (snd (call net c s)) = fetched s.
Proof.
  apply (preserves_call net
           (λ s', cache s' = cache s ∧ fetched s' = fetched s)); [| | |done].
  - by intros tr s0.
  - by intros s0.
  - intros s0 Hs0.
    destruct (truthy (refreshToken s0)) eqn:Hheld.
    + by destruct (refresh_with_token net s0 Hheld)
        as [[e ->]|(response & tokens & _ & _ & ->)].
    + by rewrite refresh_without_token.
Qed.

(** The bookkeeping is right: a read that had to fetch returns, caches and
    records the value it fetched. *)
Lemma cached_read_records key cacheTTL swr (fetcher : M json)
    (s s1 : state) (v : json) :
  cache s !! key = None →
  fetcher s = (Return v, s1) →
  let r := cached_read key cacheTTL swr (observed key fetcher) s in
  fst r = Return v ∧
  fetched (snd r) !! key = Some v ∧
  value <$> cache (snd r) !! key = Some v.
Proof.
  intros Hmiss Hfetch r. unfold r. rewrite cached_read_miss by done.
  unfold observed, record_fetch, cache_write. monad. rewrite Hfetch. simpl.
  split; [done|]. split; [apply lookup_insert_eq|].
  by rewrite lookup_insert_eq.
Qed.

(** A fetch that returns [v] for [key], once recorded and written, leaves
    the cache coherent; one that throws leaves everything as it was. *)
Lemma fetch_and_write_coherent {A} key cacheTTL (c : read_call)
    (k : json → M A) (s : state) :
  coherent s →
  (∀ v s', snd (k v s') = s') →
  coherent
    (snd ((let* v := observed key (call net c) in
           run cache_write key v cacheTTL then
           k v) s)).
Proof.
  intros Hs Hk. destruct (call_keeps_cache c s) as [Hcache Hfetched].
  unfold observed, record_fetch, cache_write. monad.
  destruct (call net c s) as [[v|e] s1]; simpl in *.
  - rewrite Hk. intros key' e. simpl. rewrite Hcache, Hfetched.
    destruct (decide (key = key')) as [->|Hne].
    + rewrite !lookup_insert_eq. by intros [= <-].
    + rewrite !lookup_insert_ne by done. by apply Hs.
  - intros key' e'. simpl. rewrite Hcache, Hfetched. by apply Hs.
Qed.

Lemma cached_read_coherent key cacheTTL swr c :
  preserves coherent (cached_read key cacheTTL swr (observed key (call net c))).
Proof.
  intros s Hs. unfold cached_read.
  unfold bind at 1. unfold gets at 1. simpl.
  unfold bind at 1. unfold gets at 1. simpl.
  destruct (cache s !! key) as [entry|]; [|by apply fetch_and_write_coherent].
  destruct (fresh (clock s) entry); [done|].
  destruct swr; [|by apply fetch_and_write_coherent].
  pose proof (fetch_and_write_coherent key cacheTTL c (λ _, ret tt) s Hs
                (λ _ _, eq_refl)) as Hwritten.
  unfold bind at 1. unfold try_catch.
  assert (Hsame :
    (let* v := observed key (call net c) in cache_write key v cacheTTL) s =
    (let* v := observed key (call net c) in
     run cache_write key v cacheTTL then ret tt) s).
  { unfold cache_write. monad.
    by destruct (observed key (call net c) s) as [[v|e] s1]. }
  rewrite Hsame.
  destruct ((let* v := observed key (call net c) in
             run cache_write key v cacheTTL then ret tt) s)
    as [[[]|e] s1]; simpl in *; done.
Qed.

Lemma coherent_along_runs storage now actions :
  coherent (exec_all net belongs toISOString actions (boot storage now)).
Proof.
  apply preserves_exec_all_with.
  - by intros tr s.
  - by intros t s.
  - by intros s.
  - apply login_coherent.
  - apply refresh_coherent.
  - apply invalidate_coherent.
  - apply cached_read_coherent.
  - intros key e. unfold boot. simpl. by rewrite lookup_empty.
Qed.

(** Every read method begins by sending a request. *)
Lemma call_dispatches c (s : state) :
  ∃ url init rest,
    trace (snd (call net c s)) = (trace s ++ Fetch url init :: rest)%list.
Proof.
  assert (Hrequest : ∀ endpoint s0, ∃ url init rest,
            trace (snd (request net endpoint no_options s0)) =
              (trace s0 ++ Fetch url init :: rest)%list).
  { intros endpoint s0.
    destruct (request_first_dispatch net endpoint no_options s0) as [rest H].
    by eexists _, _, rest. }
  destruct c; simpl;
    unfold getProducts, searchProducts, getProduct, getMemorabilia,
      getMemorabiliaItem, getMerchandise, getMerchandiseItem;
    try apply Hrequest.
  - unfold try_catch.
    destruct (Hrequest ("/v1/products/search?" +:+ query) s)
      as (url & init & rest & H).
    destruct (request net _ no_options s) as [[v|e] s1]; simpl in *.
    + by eexists _, _, _.
    + destruct (Hrequest ("/v1/products/?" +:+ query) s1)
        as (url' & init' & rest' & H').
      rewrite H', H, <- app_assoc. simpl. by eexists _, _, _.
  - unfold try_catch, throw.
    destruct (Hrequest ("/v1/products/" +:+ idOrSlug) s)
      as (url & init & rest & H).
    destruct (request net _ no_options s) as [[v|e] s1]; simpl in *;
      by eexists _, _, _.
Qed.

End Coherence.

(** C9.  In every state that a run of the client reaches, a cached read of a
    key whose entry is younger than its TTL returns the value of the entry
    and leaves the state as it is (the trace with it: no request is sent),
    whatever the fetch it was given, while each read method, called without
    the cache in that state, sends a request; and the value served is the
    one that the last fetch made for the key and returned had returned, as
    recorded where the fetch is run and not where the cache is written. *)
Theorem fresh_entry_is_served
    (net : network) (belongs : family → string → bool)
    (toISOString : Z → string)
    (storage : gmap string string) (now : Z) (actions : list action)
    (key : string) (e : CacheEntry) :
  let s := exec_all net belongs toISOString actions (boot storage now) in
  cache s !! key = Some e →
  clock s - fetchedAt e < ttl e →
  (∀ cacheTTL swr (fetcher : M json),
     cached_read key cacheTTL swr fetcher s = (Return (value e), s)) ∧
  (∀ c, ∃ url init rest,
     trace (snd (call net c s)) = (trace s ++ Fetch url init :: rest)%list) ∧
  fetched s !! key = Some (value e).
Proof.
  intros s He Hfresh. split; [|split].
  - intros cacheTTL swr fetcher.
    unfold cached_read. monad. simpl. rewrite He. unfold fresh.
    apply Z.ltb_lt in Hfresh. by rewrite Hfresh.
  - intros c. apply call_dispatches.
  - by apply (coherent_along_runs net belongs toISOString storage now actions).
Qed.

(** * The theorems at work on the sample servers *)

Lemma expired_issues_pairs (renew : bool) : issues_pairs (Samples.expired renew).
Proof.
  intros tr url init response tokens Hr Ht. unfold Samples.expired in Hr.
  destruct (String.eqb url Samples.login_url).
  { injection Hr as <-. injection Ht as <-. by split. }
  destruct (String.eqb url _).
  { destruct renew; injection Hr as <-; [|discriminate Ht].
    injection Ht as <-. by split. }
  destruct (headers init !! "Authorization") as [own|];
    repeat case_match; injection Hr as <-; discriminate Ht.
Qed.

Lemma refresh_without_token_changes_nothing_witness :
  ¬ held (refreshToken Samples.half_stored) ∧
  ∃ s',
    refreshAccessToken Samples.offline Samples.half_stored =
      (Throw (JsError "No refresh token available"), s') ∧
    accessToken s' = accessToken Samples.half_stored ∧
    refreshToken s' = refreshToken Samples.half_stored ∧
    localStorage s' = localStorage Samples.half_stored ∧
    fst (isAuthenticated s') = fst (isAuthenticated Samples.half_stored) ∧
    trace s' = (trace Samples.half_stored ++ [RefreshCall])%list.
Proof.
  assert (H : ¬ held (refreshToken Samples.half_stored)).
  { intros H. discriminate H. }
  split; [exact H|].
  exact (refresh_without_token_changes_nothing
           Samples.offline Samples.half_stored H).
Defined.

Lemma failed_refresh_with_token_logs_out_witness :
  let r := refreshAccessToken (Samples.expired false) Samples.logged_in in
  held (refreshToken Samples.logged_in) ∧
  r = (Throw (JsError "Invalid refresh token"), snd r) ∧
  fst (isAuthenticated (snd r)) = Return false ∧
  ∃ h, fst (getAuthHeaders (snd r)) = Return h ∧ h !! "Authorization" = None.
Proof.
  intros r.
  assert (Hheld : held (refreshToken Samples.logged_in)) by reflexivity.
  assert (Hr : r = (Throw (JsError "Invalid refresh token"), snd r))
    by (vm_compute; reflexivity).
  split; [exact Hheld|]. split; [exact Hr|].
  exact (failed_refresh_with_token_logs_out
           (Samples.expired false) Samples.logged_in (snd r)
           (JsError "Invalid refresh token") Hheld Hr).
Defined.

Lemma both_or_neither_along_runs_witness :
  let storage : gmap string string :=
    <["refresh_token" := "R1"]> (<["access_token" := "A1"]> ∅) in
  let actions :=
    [Read (GetProducts ""); Logout; Refresh;
     Login {| username := "sega"; password := "secret" |};
     Upload "bytes"; Refresh] in
  (held (storage !! "access_token") ↔ held (storage !! "refresh_token")) ∧
  issues_pairs (Samples.expired true) ∧
  both_or_neither
    (exec_all (Samples.expired true) Samples.by_prefix Samples.stamp actions
              (boot storage 1000)).
Proof.
  intros storage actions.
  assert (Hstorage : held (storage !! "access_token") ↔
                     held (storage !! "refresh_token")).
  { split; intros _; vm_compute; reflexivity. }
  split; [exact Hstorage|]. split; [exact (expired_issues_pairs true)|].
  exact (both_or_neither_along_runs
           (Samples.expired true) Samples.by_prefix Samples.stamp
           storage 1000 actions Hstorage (expired_issues_pairs true)).
Defined.

Lemma response_handling_witness :
  let net := Samples.failing 404 "Boom" in
  let options := {| method := Some "DELETE"; headers := ∅; body := None |} in
  let sent_to_server :=
    request_response net (API_BASE_URL +:+ "/v1/uploads/?url=x") options
                     Samples.anonymous in
  let response := Samples.error_response 404 "Boom" in
  sent_to_server = (Return response, snd sent_to_server) ∧
  fallback_applies "/v1/uploads/?url=x" = false ∧
  ok response = false ∧
  (∃ doc, body_json response = Return doc ∧
          get_property doc "detail" = Return (Some (JStr "Boom"))) ∧
  "Boom" ≠ "" ∧
  fst (request net "/v1/uploads/?url=x" options Samples.anonymous) =
    Throw (JsError "Boom").
Proof.
  intros net options sent_to_server response.
  assert (Hresponse : sent_to_server = (Return response, snd sent_to_server))
    by (vm_compute; reflexivity).
  assert (Hf : fallback_applies "/v1/uploads/?url=x" = false) by reflexivity.
  assert (Hok : ok response = false) by reflexivity.
  assert (Hdetail : ∃ doc, body_json response = Return doc ∧
                           get_property doc "detail" =
                             Return (Some (JStr "Boom"))).
  { exists (JObj [("detail", JStr "Boom")]). split; reflexivity. }
  assert (Hne : "Boom" ≠ "").
  { intros H. discriminate H. }
  split; [exact Hresponse|]. split; [exact Hf|]. split; [exact Hok|].
  split; [exact Hdetail|]. split; [exact Hne|].
  destruct (response_handling net "/v1/uploads/?url=x" options
              Samples.anonymous (snd sent_to_server) response Hresponse)
    as (_ & _ & Houtside).
  destruct (Houtside Hf) as [_ Herror].
  destruct (Herror Hok) as [Hstring _].
  exact (Hstring "Boom" Hdetail Hne).
Defined.

Lemma returned_mutation_has_invalidated_witness :
  let net := Samples.serving Samples.one_row in
  let r := perform net Samples.by_prefix Samples.stamp (DeleteProduct "7")
                   Samples.warm in
  is_mock (DeleteProduct "7") = false ∧
  fst r = Return tt ∧
  value <$> cache Samples.warm !! "products:p0" = Some Samples.one_row ∧
  cache (snd r) !! "products:p0" = None ∧
  cached_read "products:p0" 5000 false (getProducts net "") (snd r) =
    (let* v := getProducts net "" in
     run cache_write "products:p0" v 5000 then
     ret v) (snd r).
Proof.
  intros net r.
  assert (Hm : is_mock (DeleteProduct "7") = false) by reflexivity.
  assert (Hr : fst r = Return tt) by (vm_compute; reflexivity).
  split; [exact Hm|]. split; [exact Hr|].
  split; [vm_compute; reflexivity|].
  destruct (returned_mutation_has_invalidated
              net Samples.by_prefix Samples.stamp (DeleteProduct "7")
              Samples.warm Hm Hr) as [Hgone Hrefetch].
  split.
  - apply Hgone. reflexivity.
  - apply Hrefetch. reflexivity.
Defined.

Lemma fresh_entry_is_served_witness :
  let net := Samples.serving Samples.one_row in
  let query := "q=bat&limit=100" in
  let actions :=
    [CachedRead "memorabilia-list-bat" 120000 true (GetMemorabilia query);
     Advance 90000] in
  let s := exec_all net Samples.by_prefix Samples.stamp actions (boot ∅ 1000) in
  let e := {| value := Samples.one_row; fetchedAt := 1000; ttl := 120000;
              inflightRefresh := false |} in
  cache s !! "memorabilia-list-bat" = Some e ∧
  clock s - fetchedAt e < ttl e ∧
  MemorabiliaList_read net "bat" query s = (Return Samples.one_row, s) ∧
  fetched s !! "memorabilia-list-bat" = Some Samples.one_row.
Proof.
  intros net query actions s e.
  assert (He : cache s !! "memorabilia-list-bat" = Some e)
    by (vm_compute; reflexivity).
  assert (Hfresh : clock s - fetchedAt e < ttl e) by (vm_compute; reflexivity).
  split; [exact He|]. split; [exact Hfresh|].
  destruct (fresh_entry_is_served
              net Samples.by_prefix Samples.stamp ∅ 1000 actions
              "memorabilia-list-bat" e He Hfresh) as (Hserved & _ & Hlast).
  split; [|exact Hlast].
  exact (Hserved (2 * 60 * 1000) true (getMemorabilia net query)).
Defined.

Lemma one_refresh_one_retry_witness :
  let net := Samples.expired false in
  let url := API_BASE_URL +:+ "/v1/uploads/" in
  let first := Samples.error_response 401 "Token expired" in
  let r := request net "/v1/uploads/" no_options Samples.logged_in in
  net (trace Samples.logged_in) url
      (sent no_options (accessToken Samples.logged_in)) = Return first ∧
  status first = 401 ∧
  held (accessToken Samples.logged_in) ∧
  fst r = Throw session_expired ∧
  accessToken (snd r) = None ∧
  refresh_calls (trace (snd r)) = 1%nat.
Proof.
  intros net url first r.
  assert (Hfirst : net (trace Samples.logged_in) url
                     (sent no_options (accessToken Samples.logged_in)) =
                   Return first) by (vm_compute; reflexivity).
  assert (H401 : status first = 401) by reflexivity.
  assert (Hheld : held (accessToken Samples.logged_in)) by reflexivity.
  split; [exact Hfirst|]. split; [exact H401|]. split; [exact Hheld|].
  destruct (one_refresh_one_retry net "/v1/uploads/" no_options
              Samples.logged_in first Hfirst H401 Hheld)
    as (new & Htrace & Hcalls & Hend).
  assert (Hrefresh :
    fst (refreshAccessToken net
           (with_trace
              (trace Samples.logged_in ++
               [Fetch url (sent no_options (accessToken Samples.logged_in))])
              Samples.logged_in)) =
    Throw (JsError "Invalid refresh token")) by (vm_compute; reflexivity).
  fold url in Hend. rewrite Hrefresh in Hend.
  destruct Hend as (_ & Haccess & _ & _ & _ & Hthrown & _).
  split; [exact (Hthrown eq_refl)|]. split; [exact Haccess|].
  fold url in Htrace. unfold r. rewrite Htrace.
  unfold refresh_calls in *. rewrite List.filter_app, length_app.
  rewrite Hcalls. reflexivity.
Defined.

(** * Further properties of the sources *)

(** ** auth.ts: the life of the token pair *)






(** X2.  A login that the server accepts returns the pair of the answer,
    holds it in memory and in the storage, and has sent one POST of the
    three form fields, without any header. *)
Theorem login_success_stores_the_pair
    (net : network) (credentials : LoginCredentials) (s : state)
    (response : Response) (tokens : TokenResponse) :
  net (trace s) login_url (login_request credentials) = Return response →
  ok response = true →
  body_tokens response = Return tokens →
  ∃ s',
    login net credentials s = (Return tokens, s') ∧
    accessToken s' = Some (access_token tokens) ∧
    refreshToken s' = Some (refresh_token tokens) ∧
    localStorage s' !! "access_token" = Some (access_token tokens) ∧
    localStorage s' !! "refresh_token" = Some (refresh_token tokens) ∧
    trace s' = (trace s ++ [Fetch login_url (login_request credentials)])%list.
Proof.
  intros Hnet Hok Htokens. eexists. split.
  - unfold login, fetch. monad. simpl.
    fold login_url. fold (login_request credentials).
    rewrite Hnet. simpl. rewrite Hok. simpl. rewrite Htokens. reflexivity.
  - simpl. rewrite lookup_insert_ne by done. rewrite !lookup_insert_eq. done.
Qed.


(** X4.  A refresh that the server accepts sends the refresh token held,
    once, and replaces the pair in memory and in the storage by the one of
    the answer. *)
Theorem refresh_success_rotates_the_pair
    (net : network) (s : state) (response : Response)
    (tokens : TokenResponse) :
  held (refreshToken s) →
  net (trace s ++ [RefreshCall])%list refresh_url
      (refresh_request (refreshToken s)) = Return response →
  ok response = true →
  body_tokens response = Return tokens →
  ∃ s',
    refreshAccessToken net s = (Return tokens, s') ∧
    accessToken s' = Some (access_token tokens) ∧
    refreshToken s' = Some (refresh_token tokens) ∧
    localStorage s' !! "access_token" = Some (access_token tokens) ∧
    localStorage s' !! "refresh_token" = Some (refresh_token tokens) ∧
    trace s' =
      (trace s ++ [RefreshCall;
                   Fetch refresh_url (refresh_request (refreshToken s))])%list.
Proof.
  intros Hheld Hnet Hok Htokens.
  destruct (refresh_with_token net s Hheld)
    as [[e He]|(response' & tokens' & Hnet' & Htokens' & He)].
  - exfalso. revert He. unfold refreshAccessToken, fetch. monad. simpl.
    unfold held in Hheld. rewrite Hheld. simpl.
    fold refresh_url. fold (refresh_request (refreshToken s)).
    rewrite Hnet. simpl. rewrite Hok. simpl. by rewrite Htokens.
  - rewrite Hnet in Hnet'. injection Hnet' as <-.
    rewrite Htokens in Htokens'. injection Htokens' as <-.
    eexists. split; [exact He|]. simpl.
    rewrite lookup_insert_ne by done. by rewrite !lookup_insert_eq.
Qed.

(** X5.  [logout] is idempotent; after it the client is not authenticated
    and its headers have no [Authorization]; it removes the two token items
    from the storage and leaves every other item, the cache and the trace
    alone. *)
Theorem logout_is_idempotent_and_local (s : state) :
  let s' := snd (logout s) in
  snd (logout s') = s' ∧
  fst (isAuthenticated s') = Return false ∧
  fst (getAuthHeaders s') =
    Return ({[ "Content-Type" := "application/json" ]} : gmap string string) ∧
  (∀ key, localStorage s' !! key =
            if bool_decide (key = "access_token" ∨ key = "refresh_token")
            then None else localStorage s !! key) ∧
  cache s' = cache s ∧ trace s' = trace s.
Proof.
  intros s'. split.
  - unfold s', logout, clearTokensFromStorage, modify, with_tokens. simpl.
    f_equal. rewrite (delete_delete (delete _ (delete _ _))).
    rewrite delete_delete_eq.
    rewrite (delete_delete (localStorage s)). by rewrite !delete_delete_eq.
  - split; [done|]. split; [done|]. split; [|done].
    intros key. simpl. case_bool_decide as Hkey.
    + destruct Hkey as [->| ->].
      * rewrite lookup_delete_ne by done. apply lookup_delete_eq.
      * apply lookup_delete_eq.
    + rewrite !lookup_delete_ne; [done|naive_solver..].
Qed.

(** ** api.ts: what a request sends and what it returns *)

Lemma refresh_returned (net : network) (s s2 : state) (tokens : TokenResponse) :
  refreshAccessToken net s = (Return tokens, s2) →
  accessToken s2 = Some (access_token tokens) ∧
  refreshToken s2 = Some (refresh_token tokens) ∧
  trace s2 =
    (trace s ++ [RefreshCall;
                 Fetch refresh_url (refresh_request (refreshToken s))])%list.
Proof.
  intros Hr. destruct (truthy (refreshToken s)) eqn:Hheld.
  - destruct (refresh_with_token net s Hheld)
      as [[e He]|(response & tokens' & _ & _ & He)];
      rewrite He in Hr; [discriminate Hr|].
    by injection Hr as <- <-.
  - rewrite refresh_without_token in Hr by done. discriminate Hr.
Qed.

(** X6.  A request of a client that holds no access token, or whose first
    answer is not a 401, is sent exactly once: no refresh is tried, and
    the tokens, the storage and the cache are those of before. *)
Theorem unhandled_answer_sends_one_request
    (net : network) (endpoint : string) (options : RequestInit) (s : state) :
  let url := API_BASE_URL +:+ endpoint in
  (¬ held (accessToken s) ∨
   ∀ first, net (trace s) url (sent options (accessToken s)) = Return first →
            status first ≠ 401) →
  snd (request net endpoint options s) =
    with_trace (trace s ++ [Fetch url (sent options (accessToken s))]) s.
Proof.
  intros url Hplain. rewrite request_state. fold url.
  destruct (net (trace s) url (sent options (accessToken s)))
    as [first|e] eqn:Hfirst.
  - rewrite (request_response_plain net url options s first Hfirst); [done|].
    destruct Hplain as [Hanon|Hnot].
    + unfold held in Hanon. destruct (truthy (accessToken s)); [done|].
      apply andb_false_r.
    + specialize (Hnot first eq_refl). apply Z.eqb_neq in Hnot.
      by rewrite Hnot.
  - by rewrite (request_response_offline net url options s e Hfirst).
Qed.

(** X7.  When the transport fails on a list endpoint, the list method
    returns [{rows: [], total: 0, offset: 0, error}] with the message of
    the failure, having sent the one request. *)
Theorem list_transport_error_gives_empty_list
    (net : network) (endpoint : string) (options : RequestInit)
    (s : state) (e : exn) :
  let url := API_BASE_URL +:+ endpoint in
  is_listing endpoint = true →
  net (trace s) url (sent options (accessToken s)) = Throw e →
  request net endpoint options s =
    (Return (JObj [("rows", JArr []); ("total", JNum 0); ("offset", JNum 0);
                   ("error", JStr (message_of e))]),
     with_trace (trace s ++ [Fetch url (sent options (accessToken s))]) s).
Proof.
  intros url Hlist Hnet.
  pose proof (request_of_failed_response net endpoint options s _ e
                (request_response_offline net url options s e Hnet)) as Hr.
  by rewrite (listing_falls_back endpoint Hlist) in Hr.
Qed.

Ltac never_throws H :=
  let v := fresh "v" in
  let Hv := fresh "Hv" in
  destruct H as [v Hv];
  match type of Hv with
  | fst ?m = _ =>
      destruct m as [[?|?] ?]; cbn [fst] in Hv; [|discriminate Hv]
  end.

(** X8.  No read method of [ApiService] throws: the lists, the search and
    the three detail reads return a value whatever the server answers and
    the network does. *)
Theorem reads_never_throw (net : network) (c : read_call) (s : state) :
  ∃ v, fst (call net c s) = Return v.
Proof.
  destruct c; simpl;
    unfold getProducts, searchProducts, getProduct, getMemorabilia,
      getMemorabiliaItem, getMerchandise, getMerchandiseItem, try_catch.
  - apply request_never_throws_on_fallback.
    apply (products_fall_back ("?" +:+ query)).
  - pose proof (request_never_throws_on_fallback net
                  ("/v1/products/search?" +:+ query) no_options s
                  (products_fall_back ("search?" +:+ query))) as H.
    never_throws H. by eexists.
  - pose proof (request_never_throws_on_fallback net
                  ("/v1/products/" +:+ idOrSlug) no_options s
                  (products_fall_back idOrSlug)) as H.
    never_throws H. by eexists.
  - apply request_never_throws_on_fallback.
    apply (memorabilia_fall_back ("?" +:+ query)).
  - apply request_never_throws_on_fallback. apply memorabilia_fall_back.
  - apply request_never_throws_on_fallback.
    apply (merchandises_fall_back ("?" +:+ query)).
  - apply request_never_throws_on_fallback. apply merchandises_fall_back.
Qed.

Ltac returns_by fallback :=
  unfold bind;
  match goal with
  | |- context [request ?net ?endpoint ?options ?s] =>
      let H := fresh in
      pose proof (request_never_throws_on_fallback net endpoint options s
                    fallback) as H;
      never_throws H
  end; reflexivity.

(** X9.  No mutation of [ApiService] throws either: creating, updating or
    deleting a product, a memorabilia item or a merchandise item returns
    whatever the server answers, so the caller cannot tell a refused write
    from an accepted one by an exception. *)
Theorem mutations_never_throw
    (net : network) (belongs : family → string → bool)
    (toISOString : Z → string) (m : mutation) (s : state) :
  fst (perform net belongs toISOString m s) = Return tt.
Proof.
  destruct m; cbn [perform].
  - unfold createProduct, bind, try_catch, sleep, modify, gets, ret.
    reflexivity.
  - unfold updateProduct. returns_by (products_fall_back id).
  - unfold deleteProduct. returns_by (products_fall_back id).
  - unfold createMemorabilia. returns_by (memorabilia_fall_back "").
  - unfold updateMemorabilia. returns_by (memorabilia_fall_back id).
  - unfold deleteMemorabilia. returns_by (memorabilia_fall_back id).
  - unfold createMerchandise. returns_by (merchandises_fall_back "").
  - unfold updateMerchandise. returns_by (merchandises_fall_back id).
  - unfold deleteMerchandise. returns_by (merchandises_fall_back id).
Qed.

(** X10.  [searchProducts] is the one request to the search endpoint: that
    request never throws, so the fallback to the products endpoint in its
    [catch] block never runs. *)
Theorem searchProducts_never_falls_back
    (net : network) (query : string) (s : state) :
  searchProducts net query s =
  request net ("/v1/products/search?" +:+ query) no_options s.
Proof.
  unfold searchProducts, try_catch.
  pose proof (request_never_throws_on_fallback net
                ("/v1/products/search?" +:+ query) no_options s
                (products_fall_back ("search?" +:+ query))) as H.
  never_throws H. reflexivity.
Qed.

(** X11.  A request answered 401, then refreshed, then answered 2xx with a
    JSON body returns that body: one entry into the refresh, one retry, and
    the new pair is the one held afterwards.  The retry carries the
    caller's own [Authorization] when the caller brought one, whatever the
    new token; otherwise it carries the bearer of the new access token, and
    no [Authorization] at all when the server issued an empty one. *)
Theorem retried_request_returns_the_payload
    (net : network) (endpoint : string) (options : RequestInit)
    (s s2 : state) (first second : Response) (tokens : TokenResponse)
    (payload : json) :
  let url := API_BASE_URL +:+ endpoint in
  let s1 :=
    with_trace (trace s ++ [Fetch url (sent options (accessToken s))]) s in
  let init := sent options (Some (access_token tokens)) in
  let retry := Fetch url init in
  net (trace s) url (sent options (accessToken s)) = Return first →
  status first = 401 →
  held (accessToken s) →
  refreshAccessToken net s1 = (Return tokens, s2) →
  net (trace s2) url init = Return second →
  ok second = true →
  status second ≠ 204 →
  body_json second = Return payload →
  request net endpoint options s =
    (Return payload, with_trace (trace s2 ++ [retry]) s2) ∧
  accessToken s2 = Some (access_token tokens) ∧
  refreshToken s2 = Some (refresh_token tokens) ∧
  (trace s2 ++ [retry] =
   trace s1 ++ [RefreshCall;
                Fetch refresh_url (refresh_request (refreshToken s)); retry])%list ∧
  (∀ own, headers options !! "Authorization" = Some own →
          headers init !! "Authorization" = Some own) ∧
  (headers options !! "Authorization" = None →
   headers init !! "Authorization" =
     if decide (access_token tokens = "") then None
     else Some ("Bearer " +:+ access_token tokens)).
Proof.
  intros url s1 init retry Hfirst H401 Hheld Hrefresh Hsecond Hok H204 Hbody.
  destruct (refresh_returned net s1 s2 tokens Hrefresh) as (Ha & Hr & Htrace).
  split; [|split; [done|split; [done|split; [|split]]]].
  - unfold request. monad. fold url.
    rewrite (request_response_401 net url options s first Hfirst H401 Hheld).
    fold s1. rewrite Hrefresh. cbn zeta. rewrite Ha. fold init.
    rewrite Hsecond, request_result_eq. unfold result_of. rewrite Hok. simpl.
    apply Z.eqb_neq in H204. by rewrite H204, Hbody.
  - rewrite Htrace. by rewrite <- app_assoc.
  - intros own Hown. by apply retry_keeps_own_authorization.
  - intros Hnone. unfold init. rewrite sent_authorization, Hnone.
    destruct (decide (access_token tokens = "")) as [->|Hne]; [done|].
    apply truthy_Some in Hne. by rewrite Hne.
Qed.

(** X12.  The [catch] block that guards the refresh guards the retry as
    well: when the refresh succeeds and the retried [fetch] then rejects,
    the client logs out (the pair just obtained is dropped from memory and
    from the storage) and the failure is reported as an expired session. *)
Theorem failed_retry_discards_the_new_pair
    (net : network) (endpoint : string) (options : RequestInit)
    (s s2 : state) (first : Response) (tokens : TokenResponse) (e : exn) :
  let url := API_BASE_URL +:+ endpoint in
  let s1 :=
    with_trace (trace s ++ [Fetch url (sent options (accessToken s))]) s in
  let r := request net endpoint options s in
  net (trace s) url (sent options (accessToken s)) = Return first →
  status first = 401 →
  held (accessToken s) →
  refreshAccessToken net s1 = (Return tokens, s2) →
  net (trace s2) url (sent options (Some (access_token tokens))) = Throw e →
  fst r = (if fallback_applies endpoint
           then Return (empty_list session_expired)
           else Throw session_expired) ∧
  accessToken (snd r) = None ∧
  refreshToken (snd r) = None ∧
  localStorage (snd r) !! "access_token" = None ∧
  localStorage (snd r) !! "refresh_token" = None.
Proof.
  intros url s1 r Hfirst H401 Hheld Hrefresh Hsecond.
  destruct (refresh_returned net s1 s2 tokens Hrefresh) as (Ha & _ & _).
  assert (Hr : r = (if fallback_applies endpoint
                    then Return (empty_list session_expired)
                    else Throw session_expired,
                    logged_out
                      (with_trace
                         (trace s2 ++
                          [Fetch url (sent options (accessToken s2))]) s2))).
  { apply request_of_failed_response. fold url.
    rewrite (request_response_401 net url options s first Hfirst H401 Hheld).
    fold s1. rewrite Hrefresh. cbn zeta. by rewrite Ha, Hsecond. }
  rewrite Hr. simpl. split; [done|]. split; [done|]. split; [done|].
  split; [|apply lookup_delete_eq].
  rewrite lookup_delete_ne by done. apply lookup_delete_eq.
Qed.

(** X13.  [uploadFile] sends its [FormData] under the header
    [Content-Type: application/json]: [request] spreads the headers of
    [getAuthHeaders] under the caller's, and [uploadFile] brings none for
    the content type.  Its [Authorization] is the bearer of the token held
    and, for a client that holds none, the empty string. *)
Theorem upload_is_sent_as_json (net : network) (file : string) (s : state) :
  ∃ init rest,
    trace (snd (uploadFile net file s)) =
      (trace s ++ Fetch (API_BASE_URL +:+ "/v1/uploads/") init :: rest)%list ∧
    method init = Some "POST" ∧
    body init = Some (FormData [("file", file)]) ∧
    headers init !! "Content-Type" = Some "application/json" ∧
    headers init !! "Authorization" =
      Some (if truthy (accessToken s)
            then "Bearer " +:+ default "" (accessToken s) else "").
Proof.
  set (own := or_else (auth_headers (accessToken s) !! "Authorization") "").
  set (options := {| method := Some "POST";
                     headers := {[ "Authorization" := own ]};
                     body := Some (FormData [("file", file)]) |}).
  destruct (request_first_dispatch net "/v1/uploads/" options s) as [rest Hrest].
  exists (sent options (accessToken s)), rest.
  split; [exact Hrest|]. split; [done|]. split; [done|]. split.
  - unfold sent, spread, with_headers, auth_headers. cbn [headers options].
    rewrite lookup_union, lookup_singleton_ne by done.
    destruct (truthy (accessToken s)).
    + rewrite lookup_insert_ne by done. by rewrite lookup_singleton_eq.
    + by rewrite lookup_singleton_eq.
  - rewrite (retry_keeps_own_authorization options (accessToken s) own)
      by apply lookup_singleton_eq.
    unfold own, auth_headers. destruct (truthy (accessToken s)).
    + by rewrite lookup_insert_eq.
    + by rewrite lookup_singleton_ne.
Qed.

Lemma includes_prepend (s t sub : string) :
  includes t sub = true → includes (s +:+ t) sub = true.
Proof.
  intros H. induction s as [|c s IH]; [done|].
  simpl. rewrite IH. apply orb_true_r.
Qed.

Lemma fallback_applies_prepend (prefix rest : string) :
  fallback_applies rest = true → fallback_applies (prefix +:+ rest) = true.
Proof.
  unfold fallback_applies.
  intros [[H|H]%orb_true_iff|H]%orb_true_iff.
  - by rewrite (includes_prepend _ _ _ H).
  - by rewrite (includes_prepend _ _ _ H), orb_true_r.
  - by rewrite (includes_prepend _ _ _ H), !orb_true_r.
Qed.

(** X14.  The test of the [catch] block looks at the whole endpoint, query
    included: deleting an uploaded file whose URL contains "products",
    "memorabilia" or "merchandise" does not throw when the transport
    fails; [deleteFile] returns the empty list instead. *)
Theorem deleteFile_failure_can_be_swallowed
    (net : network) (query : string) (s : state) (e : exn) :
  let url := API_BASE_URL +:+ ("/v1/uploads/?" +:+ query) in
  let options := {| method := Some "DELETE"; headers := ∅; body := None |} in
  fallback_applies query = true →
  net (trace s) url (sent options (accessToken s)) = Throw e →
  deleteFile net query s =
    (Return (empty_list e),
     with_trace (trace s ++ [Fetch url (sent options (accessToken s))]) s).
Proof.
  intros url options Hquery Hnet. unfold deleteFile. fold options.
  pose proof (request_of_failed_response net ("/v1/uploads/?" +:+ query)
                options s _ e
                (request_response_offline net url options s e Hnet)) as Hr.
  by rewrite (fallback_applies_prepend "/v1/uploads/?" query Hquery) in Hr.
Qed.

(** ** api.ts: the slug of the mock product *)

Lemma lower_unit_not_capital (c : ascii) : is_capital (lower_unit c) = false.
Proof. destruct c as [[] [] [] [] [] [] [] []]; reflexivity. Qed.

Lemma toLowerCase_no_capital (s : string) :
  every_unit (fun c => negb (is_capital c)) (toLowerCase s) = true.
Proof.
  induction s as [|c s IH]; [done|]. simpl.
  by rewrite lower_unit_not_capital, IH.
Qed.

Lemma replace_runs_slug (in_run : bool) (s : string) :
  every_unit (fun c => negb (is_capital c)) s = true →
  every_unit slug_unit (replace_runs in_run s) = true.
Proof.
  assert (Hhyphen : slug_unit "-" = true) by by vm_compute.
  revert in_run. induction s as [|c s IH]; intros in_run; [done|].
  simpl. intros [Hc Hs]%andb_true_iff.
  destruct (is_space c) eqn:Hspace.
  - destruct in_run; cbn [every_unit]; rewrite ?Hhyphen; by rewrite ?IH.
  - cbn [every_unit]. unfold slug_unit at 1.
    rewrite <- is_space_white, Hspace, Hc. simpl. by apply IH.
Qed.

(** X15.  When no slug is supplied, the slug that [createProduct] makes up
    from the title has no white space and no capital letter A-Z, whatever
    the title. *)
Theorem default_slug_is_clean
    (toISOString : Z → string) (data : ProductCreate.t) (s : state) :
  truthy (ProductCreate.slug data) = false →
  ∃ product s',
    createProduct toISOString data s = (Return product, s') ∧
    every_unit slug_unit (Product.slug product) = true.
Proof.
  intros Hslug. eexists _, _. split; [reflexivity|].
  cbn [mockProduct Product.slug].
  assert (Hdefault : or_else (ProductCreate.slug data)
                       (hyphenate (toLowerCase (ProductCreate.title data))) =
                     hyphenate (toLowerCase (ProductCreate.title data))).
  { by destruct (ProductCreate.slug data) as [[|c r]|]. }
  rewrite Hdefault.
  apply replace_runs_slug, toLowerCase_no_capital.
Qed.

(** ** AuthContext.tsx and ProtectedRoute.tsx *)

Lemma login_returned (net : network) credentials (s s' : state)
    (tokens : TokenResponse) :
  login net credentials s = (Return tokens, s') →
  s' = with_tokens (Some (access_token tokens)) (Some (refresh_token tokens))
         (<["refresh_token" := refresh_token tokens]>
            (<["access_token" := access_token tokens]> (localStorage s)))
         (with_trace
            (trace s ++ [Fetch login_url (login_request credentials)]) s).
Proof.
  unfold login, fetch. monad. simpl.
  fold login_url. fold (login_request credentials).
  destruct (net _ login_url _) as [response|e']; simpl; [|done].
  destruct (ok response); simpl.
  - destruct (body_tokens response) as [tokens'|e'']; simpl; [|done].
    by intros [= <- <-].
  - by destruct (body_error response).
Qed.

Lemma login_thrown (net : network) credentials (s s' : state) (e : exn) :
  login net credentials s = (Throw e, s') →
  s' = with_trace (trace s ++ [Fetch login_url (login_request credentials)]) s.
Proof.
  unfold login, fetch. monad. simpl.
  fold login_url. fold (login_request credentials).
  destruct (net _ login_url _) as [response|e']; simpl.
  - destruct (ok response); simpl.
    + destruct (body_tokens response) as [tokens|e'']; simpl; [done|].
      by intros [= <- <-].
    + destruct (body_error response) as [doc|e'']; simpl; by intros [= <- <-].
  - by intros [= <- <-].
Qed.

(** X16.  The [login] of the context ends with [isLoading] false.  When the
    login of the service returns, the user is the admin with the e-mail
    that was typed; when it throws, whatever the cause (a refusal with its
    detail, a transport failure), the caller gets the one message "Invalid
    credentials. Please contact your administrator.", and the user and the
    tokens are those of before. *)
Theorem context_login_hides_the_cause
    (net : network) (email password : string) (p : AuthProvider) (s : state) :
  let '(r, p', s') := AuthProvider_login net email password p s in
  isLoading p' = false ∧
  match fst (login net {| username := email; password := password |} s) with
  | Return _ =>
      r = Return tt ∧
      user p' = Some {| User.id := "1"; User.email := email;
                        User.role := "admin" |}
  | Throw _ =>
      r = Throw invalid_credentials ∧
      user p' = user p ∧
      accessToken s' = accessToken s ∧
      refreshToken s' = refreshToken s ∧
      localStorage s' = localStorage s
  end.
Proof.
  unfold AuthProvider_login.
  destruct (login net _ s) as [[tokens|e] s'] eqn:Hlogin; simpl; [done|].
  by rewrite (login_thrown net _ s s' e Hlogin).
Qed.

(** X17.  After the [logout] of the context nobody is signed in, and a
    reload does not bring the session back: the provider that mounts on the
    storage left behind finds neither a demo session nor a token, and
    [ProtectedRoute] sends the visitor to [/admin]. *)
Theorem context_logout_survives_reload
    (JSON_parse : string → outcome (option User.t))
    (p : AuthProvider) (s : state) (now : Z) :
  let '(p1, s1) := AuthProvider_logout p s in
  let '(p2, s2) := checkAuth JSON_parse mounted (boot (localStorage s1) now) in
  context_isAuthenticated p1 = false ∧
  ProtectedRoute p1 ≠ Children ∧
  fst (isAuthenticated s1) = Return false ∧
  user p2 = None ∧
  fst (isAuthenticated s2) = Return false ∧
  ProtectedRoute p2 = Navigate "/admin".
Proof.
  unfold AuthProvider_logout, checkAuth, ProtectedRoute. simpl.
  assert (Hdemo : delete "demo_user"
                    (delete "demo_auth"
                       (delete "refresh_token"
                          (delete "access_token" (localStorage s))))
                  !! "demo_auth" = None).
  { rewrite lookup_delete_ne by done. apply lookup_delete_eq. }
  assert (Haccess : delete "demo_user"
                      (delete "demo_auth"
                         (delete "refresh_token"
                            (delete "access_token" (localStorage s))))
                    !! "access_token" = None).
  { rewrite !lookup_delete_ne by done. apply lookup_delete_eq. }
  rewrite Hdemo, Haccess. rewrite bool_decide_eq_false_2 by done. simpl.
  rewrite Haccess.
  split; [done|]. split; [by destruct (isLoading p)|done].
Qed.

(** X18.  A demo user that cannot be parsed costs the real session: with
    [demo_auth] "true" and a [demo_user] that [JSON.parse] rejects,
    [checkAuth] logs the service out (the tokens leave the memory and the
    storage), removes the demo items and leaves nobody signed in, so
    [ProtectedRoute] redirects although a token was held. *)
Theorem corrupt_demo_user_logs_out
    (JSON_parse : string → outcome (option User.t)) (s : state)
    (text : string) (e : exn) :
  localStorage s !! "demo_auth" = Some "true" →
  localStorage s !! "demo_user" = Some text →
  text ≠ "" →
  JSON_parse text = Throw e →
  let '(p', s') := checkAuth JSON_parse mounted s in
  user p' = None ∧
  ProtectedRoute p' = Navigate "/admin" ∧
  accessToken s' = None ∧
  refreshToken s' = None ∧
  localStorage s' !! "access_token" = None ∧
  localStorage s' !! "refresh_token" = None ∧
  localStorage s' !! "demo_auth" = None ∧
  localStorage s' !! "demo_user" = None.
Proof.
  intros Hauth Huser Htext Hparse. unfold checkAuth.
  assert (Hheld : truthy (Some text) = true) by by apply truthy_Some.
  rewrite Hauth, Huser, Hheld. rewrite bool_decide_eq_true_2 by done.
  cbn [andb]. simpl (default _ _). rewrite Hparse.
  simpl. rewrite !lookup_delete_eq.
  repeat split; try done.
  - rewrite !lookup_delete_ne by done. apply lookup_delete_eq.
  - rewrite !lookup_delete_ne by done. apply lookup_delete_eq.
  - rewrite lookup_delete_ne by done. apply lookup_delete_eq.
Qed.

(** X19.  The demo session needs no token: with [demo_auth] "true" and a
    [demo_user] that parses, [checkAuth] makes what was parsed the user,
    whatever the tokens, and leaves the state of the service as it is.
    [ProtectedRoute] then renders the page when the text parsed to a user,
    and sends the visitor to [/admin] when it parsed to a falsy value such
    as [null], even if an access token is held. *)
Theorem demo_session_needs_no_token
    (JSON_parse : string → outcome (option User.t)) (s : state)
    (text : string) (parsed : option User.t) :
  localStorage s !! "demo_auth" = Some "true" →
  localStorage s !! "demo_user" = Some text →
  text ≠ "" →
  JSON_parse text = Return parsed →
  checkAuth JSON_parse mounted s =
    ({| user := parsed; isLoading := false |}, s) ∧
  ProtectedRoute (fst (checkAuth JSON_parse mounted s)) =
    match parsed with
    | Some demo => Children
    | None => Navigate "/admin"
    end.
Proof.
  intros Hauth Huser Htext Hparse.
  assert (Hcheck : checkAuth JSON_parse mounted s =
                   ({| user := parsed; isLoading := false |}, s)).
  { unfold checkAuth.
    assert (Hheld : truthy (Some text) = true) by by apply truthy_Some.
    rewrite Hauth, Huser, Hheld. rewrite bool_decide_eq_true_2 by done.
    cbn [andb]. simpl (default _ _). by rewrite Hparse. }
  rewrite Hcheck. split; [done|]. by destruct parsed.
Qed.

(** X20.  A login through the context is kept across a reload, but not the
    e-mail: when the service's login returned a non-empty access token and
    the storage asks for no demo session, the provider that mounts on the
    storage left behind signs in the fixed user [sega@dealertower.com],
    whatever e-mail was typed. *)
Theorem reload_after_login_forgets_the_email
    (net : network) (JSON_parse : string → outcome (option User.t))
    (email password : string) (p : AuthProvider) (s s' : state)
    (tokens : TokenResponse) (now : Z) :
  login net {| username := email; password := password |} s =
    (Return tokens, s') →
  access_token tokens ≠ "" →
  demo_mode s = false →
  AuthProvider_login net email password p s =
    (Return tt,
     {| user := Some {| User.id := "1"; User.email := email;
                        User.role := "admin" |};
        isLoading := false |}, s') ∧
  fst (checkAuth JSON_parse mounted (boot (localStorage s') now)) =
    {| user := Some default_admin; isLoading := false |}.
Proof.
  intros Hlogin Haccess Hdemo. split.
  - unfold AuthProvider_login. by rewrite Hlogin.
  - rewrite (login_returned net _ s s' tokens Hlogin).
    unfold checkAuth, boot.
    cbn [snd loadTokensFromStorage modify localStorage with_tokens with_trace
         accessToken].
    rewrite !(lookup_insert_ne _ "refresh_token") by done.
    rewrite !(lookup_insert_ne _ "access_token") by done.
    rewrite lookup_insert_eq.
    unfold demo_mode in Hdemo. rewrite Hdemo.
    apply truthy_Some in Haccess. by rewrite Haccess.
Qed.

(** ** MemorabiliaList.tsx: the tags *)

Lemma array_includes_elem_of (xs : list string) (x : string) :
  array_includes xs x = true ↔ x ∈ xs.
Proof.
  unfold array_includes. rewrite existsb_exists, list_elem_of_In. split.
  - by intros (y & Hy & ->%String.eqb_eq).
  - intros Hx. exists x. split; [done|]. apply String.eqb_refl.
Qed.

Lemma keep_others_elem_of (removed tag : string) (tags : list string) :
  tag ∈ List.filter (fun t => negb (String.eqb t removed)) tags ↔
  tag ∈ tags ∧ tag ≠ removed.
Proof.
  rewrite !list_elem_of_In, filter_In, negb_true_iff, String.eqb_neq. done.
Qed.

Lemma keep_others_all (removed : string) (tags : list string) :
  removed ∉ tags →
  List.filter (fun t => negb (String.eqb t removed)) tags = tags.
Proof.
  induction tags as [|tag tags IH]; [done|].
  intros [Hne Hrest]%not_elem_of_cons. simpl.
  apply not_eq_sym, String.eqb_neq in Hne. rewrite Hne. simpl.
  by rewrite IH.
Qed.

(** X21.  The two tag handlers keep the tags of the form tidy: starting
    from distinct, non-empty tags, [handleAddTag] and [handleRemoveTag]
    leave distinct, non-empty tags, and the tag removed is gone. *)
Theorem tag_handlers_keep_tags_tidy (f : TagForm) (removed : string) :
  tidy (tags_of f) →
  tidy (tags_of (handleAddTag f)) ∧
  tidy (tags_of (handleRemoveTag removed f)) ∧
  removed ∉ tags_of (handleRemoveTag removed f).
Proof.
  intros [Hdistinct Hfilled]. split; [|split].
  - unfold handleAddTag, tags_of.
    destruct (truthy (Some (trim (newTag f)))) eqn:Hfull; [|done].
    destruct (array_includes _ _) eqn:Hseen; [done|]. simpl.
    apply truthy_Some in Hfull.
    assert (Hnew : trim (newTag f) ∉ MemorabiliaCreate.keywords (formData f)).
    { intros Hin%array_includes_elem_of. congruence. }
    split.
    + apply NoDup_app. split; [done|]. split; [|apply NoDup_singleton].
      intros tag Htag ->%list_elem_of_singleton. done.
    + apply Forall_app. split; [done|]. by apply Forall_singleton.
  - unfold handleRemoveTag, tags_of. simpl. split.
    + by apply NoDup_ListNoDup, List.NoDup_filter, NoDup_ListNoDup.
    + apply Forall_forall. intros tag [Htag _]%keep_others_elem_of.
      revert tag Htag. by apply Forall_forall.
  - unfold handleRemoveTag, tags_of. simpl.
    intros [_ Hne]%keep_others_elem_of. done.
Qed.

(** X22.  Adding a tag puts the trimmed text at the end and empties the
    input, and removing that tag gives the tags of before; blank input and
    a tag already present change nothing; and running [handleAddTag] twice
    is running it once. *)
Theorem add_then_remove_tag (f : TagForm) :
  let tag := trim (newTag f) in
  handleAddTag (handleAddTag f) = handleAddTag f ∧
  if truthy (Some tag) && negb (array_includes (tags_of f) tag)
  then tags_of (handleAddTag f) = (tags_of f ++ [tag])%list ∧
       newTag (handleAddTag f) = "" ∧
       tags_of (handleRemoveTag tag (handleAddTag f)) = tags_of f
  else handleAddTag f = f.
Proof.
  intros tag. unfold tags_of.
  assert (Hstep : handleAddTag f =
            if truthy (Some tag) &&
               negb (array_includes (MemorabiliaCreate.keywords (formData f))
                                    tag)
            then {| formData :=
                      with_keywords
                        (MemorabiliaCreate.keywords (formData f) ++ [tag])
                        (formData f);
                    newTag := "" |}
            else f) by reflexivity.
  destruct (truthy (Some tag) && negb (array_includes _ tag)) eqn:Htest.
  - rewrite Hstep. split; [reflexivity|]. split; [reflexivity|].
    split; [reflexivity|]. simpl.
    apply andb_true_iff in Htest as [_ Hnew%negb_true_iff].
    assert (Habsent : tag ∉ MemorabiliaCreate.keywords (formData f)).
    { intros Hin%array_includes_elem_of. congruence. }
    rewrite List.filter_app, (keep_others_all tag _ Habsent). simpl.
    rewrite String.eqb_refl. simpl. apply app_nil_r.
  - rewrite Hstep. split; [|done].
    unfold handleAddTag. fold tag. by rewrite Htest.
Qed.

(** X23.  A table row loses no tag: the cell shows at most three, and the
    badge, there exactly when more than three exist, counts the ones its
    tooltip lists; shown and listed tags together are the tags of the
    item, in order. *)
Theorem tag_cell_loses_nothing (keywords : list string) :
  let '(shown, badge) := tag_cell keywords in
  (length shown ≤ 3)%nat ∧
  match badge with
  | Some (count, listed) =>
      (3 < length keywords)%nat ∧ count = length listed ∧ (0 < count)%nat ∧
      (shown ++ listed)%list = keywords
  | None => (length keywords ≤ 3)%nat ∧ shown = keywords
  end.
Proof.
  unfold tag_cell. split.
  - rewrite length_take. lia.
  - destruct (3 <? length keywords)%nat eqn:Hmore.
    + apply Nat.ltb_lt in Hmore. rewrite length_drop.
      split; [done|]. split; [done|]. split; [lia|]. apply take_drop.
    + apply Nat.ltb_ge in Hmore. split; [done|]. by apply take_ge.
Qed.

(** * The further properties at work on the sample servers *)



Lemma login_success_stores_the_pair_witness :
  let net := Samples.expired true in
  let response := Samples.token_response Samples.tokens2 in
  net (trace Samples.anonymous) login_url (login_request Samples.sega) =
    Return response ∧
  ok response = true ∧
  body_tokens response = Return Samples.tokens2 ∧
  ∃ s',
    login net Samples.sega Samples.anonymous = (Return Samples.tokens2, s') ∧
    accessToken s' = Some "A2" ∧
    refreshToken s' = Some "R2" ∧
    localStorage s' !! "access_token" = Some "A2" ∧
    localStorage s' !! "refresh_token" = Some "R2" ∧
    trace s' = (trace Samples.anonymous ++
                [Fetch login_url (login_request Samples.sega)])%list.
Proof.
  intros net response.
  assert (Hnet : net (trace Samples.anonymous) login_url
                     (login_request Samples.sega) = Return response)
    by (vm_compute; reflexivity).
  assert (Hok : ok response = true) by reflexivity.
  assert (Htokens : body_tokens response = Return Samples.tokens2)
    by reflexivity.
  split; [exact Hnet|]. split; [exact Hok|]. split; [exact Htokens|].
  exact (login_success_stores_the_pair net Samples.sega Samples.anonymous
           response Samples.tokens2 Hnet Hok Htokens).
Defined.


Lemma refresh_success_rotates_the_pair_witness :
  let net := Samples.expired true in
  let response := Samples.token_response Samples.tokens2 in
  held (refreshToken Samples.logged_in) ∧
  net (trace Samples.logged_in ++ [RefreshCall])%list refresh_url
      (refresh_request (refreshToken Samples.logged_in)) = Return response ∧
  ok response = true ∧
  body_tokens response = Return Samples.tokens2 ∧
  ∃ s',
    refreshAccessToken net Samples.logged_in = (Return Samples.tokens2, s') ∧
    accessToken s' = Some "A2" ∧
    refreshToken s' = Some "R2" ∧
    localStorage s' !! "access_token" = Some "A2" ∧
    localStorage s' !! "refresh_token" = Some "R2" ∧
    trace s' =
      (trace Samples.logged_in ++
       [RefreshCall;
        Fetch refresh_url
              (refresh_request (refreshToken Samples.logged_in))])%list.
Proof.
  intros net response.
  assert (Hheld : held (refreshToken Samples.logged_in)) by reflexivity.
  assert (Hnet : net (trace Samples.logged_in ++ [RefreshCall])%list
                     refresh_url
                     (refresh_request (refreshToken Samples.logged_in)) =
                 Return response) by (vm_compute; reflexivity).
  assert (Hok : ok response = true) by reflexivity.
  assert (Htokens : body_tokens response = Return Samples.tokens2)
    by reflexivity.
  split; [exact Hheld|]. split; [exact Hnet|]. split; [exact Hok|].
  split; [exact Htokens|].
  exact (refresh_success_rotates_the_pair net Samples.logged_in response
           Samples.tokens2 Hheld Hnet Hok Htokens).
Defined.

Lemma unhandled_answer_sends_one_request_witness :
  let net := Samples.expired false in
  let url := API_BASE_URL +:+ "/v1/uploads/" in
  ¬ held (accessToken Samples.anonymous) ∧
  snd (request net "/v1/uploads/" no_options Samples.anonymous) =
    with_trace
      (trace Samples.anonymous ++
       [Fetch url (sent no_options (accessToken Samples.anonymous))])
      Samples.anonymous.
Proof.
  intros net url.
  assert (Hanon : ¬ held (accessToken Samples.anonymous)).
  { intros H. discriminate H. }
  split; [exact Hanon|].
  exact (unhandled_answer_sends_one_request net "/v1/uploads/" no_options
           Samples.anonymous (or_introl Hanon)).
Defined.

Lemma list_transport_error_gives_empty_list_witness :
  let net := Samples.offline in
  let url := API_BASE_URL +:+ "/v1/memorabilia/?q=bat" in
  is_listing "/v1/memorabilia/?q=bat" = true ∧
  net (trace Samples.logged_in) url
      (sent no_options (accessToken Samples.logged_in)) =
    Throw (JsError "Failed to fetch") ∧
  getMemorabilia net "q=bat" Samples.logged_in =
    (Return (JObj [("rows", JArr []); ("total", JNum 0); ("offset", JNum 0);
                   ("error", JStr "Failed to fetch")]),
     with_trace
       (trace Samples.logged_in ++
        [Fetch url (sent no_options (accessToken Samples.logged_in))])
       Samples.logged_in).
Proof.
  intros net url.
  assert (Hlist : is_listing "/v1/memorabilia/?q=bat" = true) by reflexivity.
  assert (Hnet : net (trace Samples.logged_in) url
                     (sent no_options (accessToken Samples.logged_in)) =
                 Throw (JsError "Failed to fetch")) by reflexivity.
  split; [exact Hlist|]. split; [exact Hnet|].
  exact (list_transport_error_gives_empty_list net "/v1/memorabilia/?q=bat"
           no_options Samples.logged_in (JsError "Failed to fetch")
           Hlist Hnet).
Defined.

Lemma retried_request_returns_the_payload_witness :
  let net := Samples.expired true in
  let url := API_BASE_URL +:+ "/v1/products/?" in
  let first := Samples.error_response 401 "Token expired" in
  let second := Samples.payload_response 200 Samples.one_row in
  let s1 :=
    with_trace
      (trace Samples.logged_in ++
       [Fetch url (sent no_options (accessToken Samples.logged_in))])
      Samples.logged_in in
  let s2 := snd (refreshAccessToken net s1) in
  net (trace Samples.logged_in) url
      (sent no_options (accessToken Samples.logged_in)) = Return first ∧
  status first = 401 ∧
  held (accessToken Samples.logged_in) ∧
  refreshAccessToken net s1 = (Return Samples.tokens2, s2) ∧
  net (trace s2) url (sent no_options (Some "A2")) = Return second ∧
  ok second = true ∧
  status second ≠ 204 ∧
  body_json second = Return Samples.one_row ∧
  headers no_options !! "Authorization" = None ∧
  fst (getProducts net "" Samples.logged_in) = Return Samples.one_row ∧
  accessToken (snd (getProducts net "" Samples.logged_in)) = Some "A2" ∧
  headers (sent no_options (Some "A2")) !! "Authorization" = Some "Bearer A2".
Proof.
  intros net url first second s1 s2.
  assert (Hfirst : net (trace Samples.logged_in) url
                     (sent no_options (accessToken Samples.logged_in)) =
                   Return first) by (vm_compute; reflexivity).
  assert (H401 : status first = 401) by reflexivity.
  assert (Hheld : held (accessToken Samples.logged_in)) by reflexivity.
  assert (Hrefresh : refreshAccessToken net s1 = (Return Samples.tokens2, s2))
    by (vm_compute; reflexivity).
  assert (Hsecond : net (trace s2) url (sent no_options (Some "A2")) =
                    Return second) by (vm_compute; reflexivity).
  assert (Hok : ok second = true) by reflexivity.
  assert (H204 : status second ≠ 204).
  { intros H. discriminate H. }
  assert (Hbody : body_json second = Return Samples.one_row) by reflexivity.
  split; [exact Hfirst|]. split; [exact H401|]. split; [exact Hheld|].
  split; [exact Hrefresh|]. split; [exact Hsecond|]. split; [exact Hok|].
  assert (Hnone : headers no_options !! "Authorization" = None)
    by reflexivity.
  split; [exact H204|]. split; [exact Hbody|]. split; [exact Hnone|].
  destruct (retried_request_returns_the_payload net "/v1/products/?"
              no_options Samples.logged_in s2 first second Samples.tokens2
              Samples.one_row Hfirst H401 Hheld Hrefresh Hsecond Hok H204
              Hbody) as (Hrequest & Haccess & _ & _ & _ & Hbearer).
  change (getProducts net "" Samples.logged_in)
    with (request net "/v1/products/?" no_options Samples.logged_in).
  rewrite Hrequest. split; [reflexivity|]. split; [exact Haccess|].
  exact (Hbearer Hnone).
Defined.

Lemma failed_retry_discards_the_new_pair_witness :
  let net := Samples.dropping in
  let url := API_BASE_URL +:+ "/v1/uploads/" in
  let first := Samples.error_response 401 "Token expired" in
  let s1 :=
    with_trace
      (trace Samples.logged_in ++
       [Fetch url (sent no_options (accessToken Samples.logged_in))])
      Samples.logged_in in
  let s2 := snd (refreshAccessToken net s1) in
  let r := request net "/v1/uploads/" no_options Samples.logged_in in
  net (trace Samples.logged_in) url
      (sent no_options (accessToken Samples.logged_in)) = Return first ∧
  status first = 401 ∧
  held (accessToken Samples.logged_in) ∧
  refreshAccessToken net s1 = (Return Samples.tokens2, s2) ∧
  accessToken s2 = Some "A2" ∧
  net (trace s2) url (sent no_options (Some "A2")) =
    Throw (JsError "Failed to fetch") ∧
  fst r = Throw session_expired ∧
  accessToken (snd r) = None ∧
  localStorage (snd r) !! "access_token" = None.
Proof.
  intros net url first s1 s2 r.
  assert (Hfirst : net (trace Samples.logged_in) url
                     (sent no_options (accessToken Samples.logged_in)) =
                   Return first) by (vm_compute; reflexivity).
  assert (H401 : status first = 401) by reflexivity.
  assert (Hheld : held (accessToken Samples.logged_in)) by reflexivity.
  assert (Hrefresh : refreshAccessToken net s1 = (Return Samples.tokens2, s2))
    by (vm_compute; reflexivity).
  assert (Hnew : accessToken s2 = Some "A2") by (vm_compute; reflexivity).
  assert (Hsecond : net (trace s2) url (sent no_options (Some "A2")) =
                    Throw (JsError "Failed to fetch"))
    by (vm_compute; reflexivity).
  split; [exact Hfirst|]. split; [exact H401|]. split; [exact Hheld|].
  split; [exact Hrefresh|]. split; [exact Hnew|]. split; [exact Hsecond|].
  destruct (failed_retry_discards_the_new_pair net "/v1/uploads/" no_options
              Samples.logged_in s2 first Samples.tokens2
              (JsError "Failed to fetch") Hfirst H401 Hheld Hrefresh Hsecond)
    as (Hresult & Haccess & _ & Hstored & _).
  split; [exact Hresult|]. split; [exact Haccess|exact Hstored].
Defined.

Lemma deleteFile_failure_can_be_swallowed_witness :
  let query := "url=https%3A%2F%2Fcdn.example%2Fproducts%2Fbatmobile.png" in
  let url := API_BASE_URL +:+ ("/v1/uploads/?" +:+ query) in
  let options := {| method := Some "DELETE"; headers := ∅; body := None |} in
  fallback_applies query = true ∧
  Samples.offline (trace Samples.anonymous) url
    (sent options (accessToken Samples.anonymous)) =
    Throw (JsError "Failed to fetch") ∧
  fst (deleteFile Samples.offline query Samples.anonymous) =
    Return (empty_list (JsError "Failed to fetch")).
Proof.
  intros query url options.
  assert (Hquery : fallback_applies query = true) by reflexivity.
  assert (Hnet : Samples.offline (trace Samples.anonymous) url
                   (sent options (accessToken Samples.anonymous)) =
                 Throw (JsError "Failed to fetch")) by reflexivity.
  split; [exact Hquery|]. split; [exact Hnet|].
  rewrite (deleteFile_failure_can_be_swallowed Samples.offline query
             Samples.anonymous (JsError "Failed to fetch") Hquery Hnet).
  reflexivity.
Defined.

Lemma default_slug_is_clean_witness :
  truthy (ProductCreate.slug Samples.batmobile) = false ∧
  ∃ product s',
    createProduct Samples.stamp Samples.batmobile Samples.anonymous =
      (Return product, s') ∧
    every_unit slug_unit (Product.slug product) = true.
Proof.
  assert (Hslug : truthy (ProductCreate.slug Samples.batmobile) = false)
    by reflexivity.
  split; [exact Hslug|].
  exact (default_slug_is_clean Samples.stamp Samples.batmobile
           Samples.anonymous Hslug).
Defined.

Lemma corrupt_demo_user_logs_out_witness :
  let s := boot (<["demo_user" := "{broken"]>
                   (<["demo_auth" := "true"]>
                      (<["refresh_token" := "R1"]>
                         (<["access_token" := "A1"]> ∅)))) 1000 in
  let r := checkAuth Samples.parse_demo mounted s in
  held (accessToken s) ∧
  localStorage s !! "demo_auth" = Some "true" ∧
  localStorage s !! "demo_user" = Some "{broken" ∧
  "{broken" ≠ "" ∧
  Samples.parse_demo "{broken" = Throw (JsError "Unexpected token") ∧
  user (fst r) = None ∧
  ProtectedRoute (fst r) = Navigate "/admin" ∧
  accessToken (snd r) = None ∧
  localStorage (snd r) !! "access_token" = None.
Proof.
  intros s r.
  assert (Hauth : localStorage s !! "demo_auth" = Some "true")
    by (vm_compute; reflexivity).
  assert (Huser : localStorage s !! "demo_user" = Some "{broken")
    by (vm_compute; reflexivity).
  assert (Htext : "{broken" ≠ "").
  { intros H. discriminate H. }
  assert (Hparse : Samples.parse_demo "{broken" =
                   Throw (JsError "Unexpected token")) by reflexivity.
  split; [reflexivity|]. split; [exact Hauth|]. split; [exact Huser|].
  split; [exact Htext|]. split; [exact Hparse|].
  pose proof (corrupt_demo_user_logs_out Samples.parse_demo s "{broken"
                (JsError "Unexpected token") Hauth Huser Htext Hparse) as H.
  fold r in H. destruct r as [p' s'].
  destruct H as (Hnobody & Hroute & Haccess & _ & Hstored & _).
  split; [exact Hnobody|]. split; [exact Hroute|].
  split; [exact Haccess|exact Hstored].
Defined.

Lemma demo_session_needs_no_token_witness :
  let s := boot (<["demo_user" := "{demo}"]> (<["demo_auth" := "true"]> ∅))
                1000 in
  let demo := {| User.id := "9"; User.email := "demo@example.com";
                 User.role := "admin" |} in
  ¬ held (accessToken s) ∧
  localStorage s !! "demo_auth" = Some "true" ∧
  localStorage s !! "demo_user" = Some "{demo}" ∧
  "{demo}" ≠ "" ∧
  Samples.parse_demo "{demo}" = Return (Some demo) ∧
  checkAuth Samples.parse_demo mounted s =
    ({| user := Some demo; isLoading := false |}, s) ∧
  ProtectedRoute (fst (checkAuth Samples.parse_demo mounted s)) = Children.
Proof.
  intros s demo.
  assert (Hauth : localStorage s !! "demo_auth" = Some "true")
    by (vm_compute; reflexivity).
  assert (Huser : localStorage s !! "demo_user" = Some "{demo}")
    by (vm_compute; reflexivity).
  assert (Htext : "{demo}" ≠ "").
  { intros H. discriminate H. }
  assert (Hparse : Samples.parse_demo "{demo}" = Return (Some demo))
    by reflexivity.
  split; [intros H; discriminate H|].
  split; [exact Hauth|]. split; [exact Huser|].
  split; [exact Htext|]. split; [exact Hparse|].
  exact (demo_session_needs_no_token Samples.parse_demo s "{demo}" (Some demo)
           Hauth Huser Htext Hparse).
Defined.

Lemma reload_after_login_forgets_the_email_witness :
  let net := Samples.expired true in
  let r := login net {| username := "owner@example.com";
                        password := "secret" |} Samples.anonymous in
  r = (Return Samples.tokens2, snd r) ∧
  access_token Samples.tokens2 ≠ "" ∧
  demo_mode Samples.anonymous = false ∧
  AuthProvider_login net "owner@example.com" "secret" mounted
                     Samples.anonymous =
    (Return tt,
     {| user := Some {| User.id := "1"; User.email := "owner@example.com";
                        User.role := "admin" |};
        isLoading := false |}, snd r) ∧
  fst (checkAuth Samples.parse_demo mounted
                 (boot (localStorage (snd r)) 2000)) =
    {| user := Some default_admin; isLoading := false |}.
Proof.
  intros net r.
  assert (Hlogin : r = (Return Samples.tokens2, snd r))
    by (vm_compute; reflexivity).
  assert (Haccess : access_token Samples.tokens2 ≠ "").
  { intros H. discriminate H. }
  assert (Hdemo : demo_mode Samples.anonymous = false)
    by (vm_compute; reflexivity).
  split; [exact Hlogin|]. split; [exact Haccess|]. split; [exact Hdemo|].
  exact (reload_after_login_forgets_the_email net Samples.parse_demo
           "owner@example.com" "secret" mounted Samples.anonymous (snd r)
           Samples.tokens2 2000 Hlogin Haccess Hdemo).
Defined.

Lemma tag_handlers_keep_tags_tidy_witness :
  let f := {| formData := Samples.blank_form; newTag := "  jet " |} in
  tidy (tags_of f) ∧
  tags_of (handleAddTag f) = ["prop"; "car"; "jet"] ∧
  tags_of (handleRemoveTag "car" f) = ["prop"] ∧
  tidy (tags_of (handleAddTag f)) ∧
  tidy (tags_of (handleRemoveTag "car" f)) ∧
  "car" ∉ tags_of (handleRemoveTag "car" f).
Proof.
  intros f.
  assert (Htidy : tidy (tags_of f)).
  { split.
    - apply NoDup_cons. split.
      + intros H%list_elem_of_singleton. discriminate H.
      + apply NoDup_singleton.
    - apply Forall_cons. split; [intros H; discriminate H|].
      apply Forall_cons. split; [intros H; discriminate H|].
      apply Forall_nil_2. }
  split; [exact Htidy|]. split; [reflexivity|]. split; [reflexivity|].
  exact (tag_handlers_keep_tags_tidy f "car" Htidy).
Defined.
